(** * The contact book of the console bot helper

    A shallow embedding of [project/functionality_for_bot.py]: the field
    validators [Phone] and [Birthday], the mutable [Record] of a contact and
    the [AddressBook] dictionary with its upcoming-birthday query; and of
    the command handlers of [project/main.py] with their decorator
    [input_error].

    Python objects live in a store ([heap]) and the book holds references
    to them, so that a record mutated through one reference is seen through
    every other one.  Exceptions are values of [exn]; a method that raises
    leaves the store as it was.  The parts of the Python runtime the source
    calls ([str.isdigit], [re], [int], [datetime]) are modelled in the
    modules [Py], [Re] and [Date] below. *)

From Stdlib Require Import ZArith NArith Lia List Bool Ascii String.
From stdpp Require Import base tactics option list gmap pretty.

#[local] Open Scope Z_scope.

(** ** Python runtime *)

Module Py.

(** A [str] is a sequence of Unicode code points. *)
Definition char := N.
Definition str := list char.

(** The Unicode character database is not part of the program; the two
    properties the program consults are taken as an interface:
    - [isdigit_char c]: [c] has Numeric_Type Digit or Decimal
      (what [str.isdigit] asks of every character);
    - [decimal_char c]: the value of [c] when it is a decimal digit
      (general category Nd: what [\d] matches and [int] converts).
    The two laws fix both on the ASCII digits ['0'] .. ['9']. *)
Class Unicode := {
  isdigit_char : char -> bool;
  decimal_char : char -> option Z;
  isdigit_ascii : forall c : char, (48 <= c <= 57)%N -> isdigit_char c = true;
  decimal_ascii : forall c : char, (48 <= c <= 57)%N ->
                  decimal_char c = Some (Z.of_N c - 48);
}.

(** The messages of the [ValueError]s the program can meet. *)
Inductive value_error :=
| InvalidDateFormat          (* "Invalid date format. Use DD.MM.YYYY" *)
| DoesNotMatchFormat         (* "time data ... does not match format ..." *)
| UnconvertedDataRemains     (* "unconverted data remains: ..." *)
| InvalidLiteralForInt       (* "invalid literal for int() ..." *)
| YearOutOfRange             (* "year ... is out of range" *)
| MonthOutOfRange            (* "month must be in 1..12" *)
| DayOutOfRange              (* "day is out of range for month" *)
| NotInList (x : str).       (* "'x' is not in list" *)

Inductive validation_error :=
| MustHave10Numbers          (* 'The phone must have 10 numbers.' *)
| IncorrectDate.             (* 'Incorrect date.' *)

Inductive exn :=
| ValidationError (m : validation_error)
| ValueError (m : value_error)
| KeyError (key : str)
| OverflowError.

(** A computation returns a value or raises. *)
Inductive result (A : Type) :=
| Ok (a : A)
| Raise (e : exn).
Arguments Ok {A} a.
Arguments Raise {A} e.

#[export] Instance result_ret : MRet result := fun A a => Ok a.
#[export] Instance result_bind : MBind result := fun A B f m =>
  match m with
  | Ok a => f a
  | Raise e => Raise e
  end.

Definition succeeds {A} (m : result A) : Prop := exists a, m = Ok a.
Definition raises {A} (m : result A) : Prop := exists e, m = Raise e.

(** [try: m except ValueError: raise ValueError(msg)] *)
Definition except_ValueError {A} (m : result A) (msg : value_error) : result A :=
  match m with
  | Raise (ValueError _) => Raise (ValueError msg)
  | _ => m
  end.

(** [str.isdigit]: every character is a digit and there is at least one. *)
Definition isdigit `{Unicode} (s : str) : bool :=
  negb (bool_decide (s = [])) && forallb isdigit_char s.

(** [int(s)] on the strings the program converts: blanks are stripped from
    the left, what remains must be a non-empty run of decimal digits. *)
Fixpoint lstrip (s : str) : str :=
  match s with
  | c :: s' => if (c =? 32)%N then lstrip s' else s
  | [] => []
  end.

Fixpoint int_digits `{Unicode} (acc : Z) (s : str) : option Z :=
  match s with
  | [] => Some acc
  | c :: s' =>
      match decimal_char c with
      | Some v => int_digits (acc * 10 + v) s'
      | None => None
      end
  end.

Definition int `{Unicode} (s : str) : result Z :=
  match lstrip s with
  | [] => Raise (ValueError InvalidLiteralForInt)
  | ds => match int_digits 0 ds with
          | Some n => Ok n
          | None => Raise (ValueError InvalidLiteralForInt)
          end
  end.

(** [l.index(x)]: the first position holding [x]. *)
Fixpoint index (l : list str) (x : str) : result nat :=
  match l with
  | [] => Raise (ValueError (NotInList x))
  | y :: l' => if bool_decide (y = x) then Ok 0%nat
               else i ← index l' x; Ok (S i)
  end.

(** A [dict] with [str] keys keeps its entries in insertion order: an
    association list in which no key occurs twice. *)
Abbreviation dict V := (list (str * V)).

Section dict.
Context {V : Type}.

(** [d.get(k)] *)
Fixpoint dict_get (k : str) (d : dict V) : option V :=
  match d with
  | [] => None
  | (k', v) :: d' => if bool_decide (k' = k) then Some v else dict_get k d'
  end.

(** [d[k] = v]: a key already present keeps its place. *)
Fixpoint dict_setitem (k : str) (v : V) (d : dict V) : dict V :=
  match d with
  | [] => [(k, v)]
  | (k', v') :: d' => if bool_decide (k' = k) then (k, v) :: d'
                      else (k', v') :: dict_setitem k v d'
  end.

(** [d.pop(k)]: the value removed and the dictionary left. *)
Fixpoint dict_pop (k : str) (d : dict V) : result (V * dict V) :=
  match d with
  | [] => Raise (KeyError k)
  | (k', v) :: d' => if bool_decide (k' = k) then Ok (v, d')
                     else '(x, d'') ← dict_pop k d'; Ok (x, (k', v) :: d'')
  end.

Definition dict_keys (d : dict V) : list str := fst <$> d.
Definition dict_values (d : dict V) : list V := snd <$> d.
Definition dict_wf (d : dict V) : Prop := NoDup (dict_keys d).
End dict.

(** Character and string literals. *)
Definition ord (a : ascii) : char := N_of_ascii a.
Definition lit (s : string) : str := map ord (list_ascii_of_string s).

End Py.
Import Py.

(** ** Calendar dates: the part of [datetime] the program uses

    The program reads of a [datetime] only its date: [strptime] with the
    format [%d.%m.%Y] yields midnight, [replace(year=...)] and
    [+ timedelta(days=...)] keep the time of day, and of [datetime.now()]
    only [.date()], [.year] and [.toordinal()] are taken.  A [date] below
    stands for both.  The definitions follow CPython's [datetime]. *)

Module Date.

Record date := mkdate { year : Z; month : Z; day : Z }.

#[export] Instance date_eq_dec : EqDecision date.
Proof. solve_decision. Defined.

Definition MINYEAR := 1.
Definition MAXYEAR := 9999.
Definition MAXORDINAL := 3652059.

Definition is_leap (y : Z) : bool :=
  (y mod 4 =? 0) && (negb (y mod 100 =? 0) || (y mod 400 =? 0)).

Definition DAYS_IN_MONTH (m : Z) : Z :=
  match m with
  | 1 => 31 | 2 => 28 | 3 => 31 | 4 => 30 | 5 => 31 | 6 => 30
  | 7 => 31 | 8 => 31 | 9 => 30 | 10 => 31 | 11 => 30 | 12 => 31
  | _ => -1
  end.

Definition DAYS_BEFORE_MONTH (m : Z) : Z :=
  match m with
  | 1 => 0 | 2 => 31 | 3 => 59 | 4 => 90 | 5 => 120 | 6 => 151
  | 7 => 181 | 8 => 212 | 9 => 243 | 10 => 273 | 11 => 304 | 12 => 334
  | _ => -1
  end.

Definition days_before_year (y : Z) : Z :=
  let y := y - 1 in y * 365 + y / 4 - y / 100 + y / 400.

Definition days_in_month (y m : Z) : Z :=
  if (m =? 2) && is_leap y then 29 else DAYS_IN_MONTH m.

Definition days_before_month (y m : Z) : Z :=
  DAYS_BEFORE_MONTH m + (if (2 <? m) && is_leap y then 1 else 0).

Definition ymd2ord (y m d : Z) : Z :=
  days_before_year y + days_before_month y m + d.

Definition DI400Y := 146097.
Definition DI100Y := 36524.
Definition DI4Y := 1461.

Definition ord2ymd (n : Z) : Z * Z * Z :=
  let n := n - 1 in
  let n400 := n / DI400Y in let n := n mod DI400Y in
  let y := n400 * 400 + 1 in
  let n100 := n / DI100Y in let n := n mod DI100Y in
  let n4 := n / DI4Y in let n := n mod DI4Y in
  let n1 := n / 365 in let n := n mod 365 in
  let y := y + n100 * 100 + n4 * 4 + n1 in
  if (n1 =? 4) || (n100 =? 4) then (y - 1, 12, 31)
  else
    let leapyear := (n1 =? 3) && (negb (n4 =? 24) || (n100 =? 3)) in
    let m := Z.shiftr (n + 50) 5 in
    let preceding :=
      DAYS_BEFORE_MONTH m + (if (2 <? m) && leapyear then 1 else 0) in
    if n <? preceding then
      let m := m - 1 in
      let preceding :=
        preceding - (DAYS_IN_MONTH m + (if (m =? 2) && leapyear then 1 else 0)) in
      (y, m, n - preceding + 1)
    else (y, m, n - preceding + 1).

(** The check every constructor of a date runs on its fields. *)
Definition check_date_fields (y m d : Z) : result date :=
  if negb ((MINYEAR <=? y) && (y <=? MAXYEAR)) then Raise (ValueError YearOutOfRange)
  else if negb ((1 <=? m) && (m <=? 12)) then Raise (ValueError MonthOutOfRange)
  else if negb ((1 <=? d) && (d <=? days_in_month y m)) then Raise (ValueError DayOutOfRange)
  else Ok (mkdate y m d).

(** The dates a constructor lets through. *)
Definition valid (d : date) : Prop :=
  1 <= year d <= 9999 /\ 1 <= month d <= 12 /\
  1 <= day d <= days_in_month (year d) (month d).

(** [d.replace(year=y)] *)
Definition replace_year (d : date) (y : Z) : result date :=
  check_date_fields y (month d) (day d).

Definition toordinal (d : date) : Z := ymd2ord (year d) (month d) (day d).

Definition fromordinal (n : Z) : date :=
  let '(y, m, d) := ord2ymd n in mkdate y m d.

(** [d.weekday()]: Monday is 0, Sunday is 6. *)
Definition weekday (d : date) : Z := (toordinal d + 6) mod 7.

(** [d + timedelta(days=k)] *)
Definition add_days (d : date) (k : Z) : result date :=
  let n := toordinal d + k in
  if (0 <? n) && (n <=? MAXORDINAL) then Ok (fromordinal n)
  else Raise OverflowError.

(** Dates compare as the tuples (year, month, day). *)
Definition ltb (a b : date) : bool :=
  (year a <? year b) ||
  ((year a =? year b) &&
   ((month a <? month b) || ((month a =? month b) && (day a <? day b)))).

Definition leb (a b : date) : bool := negb (ltb b a).

End Date.
Import Date.

(** The month and day [ord2ymd] finds within a year, from the zero-based
    day of the year and whether the year is leap. *)
Definition month_day (leapyear : bool) (n : Z) : Z * Z :=
  let m := Z.shiftr (n + 50) 5 in
  let preceding :=
    DAYS_BEFORE_MONTH m + (if (2 <? m) && leapyear then 1 else 0) in
  if n <? preceding then
    let m := m - 1 in
    let preceding :=
      preceding - (DAYS_IN_MONTH m + (if (m =? 2) && leapyear then 1 else 0)) in
    (m, n - preceding + 1)
  else (m, n - preceding + 1).

(** What is to be checked of [month_day]: a day of the month that exists,
    as many days into the year as asked. *)
Definition month_day_ok (leapyear : bool) (n : Z) : bool :=
  let '(m, d) := month_day leapyear n in
  (1 <=? m) && (m <=? 12) && (1 <=? d) &&
  (d <=? (if (m =? 2) && leapyear then 29 else DAYS_IN_MONTH m)) &&
  (DAYS_BEFORE_MONTH m + (if (2 <? m) && leapyear then 1 else 0) + d =? n + 1).

(** ** Regular expressions: the part of [re] behind [strptime] *)

Module Re.

Inductive group := g_d | g_m | g_Y.

#[export] Instance group_eq_dec : EqDecision group.
Proof. solve_decision. Defined.

Inductive regex :=
| Chr (c : char)              (* a literal character *)
| Range (lo hi : char)        (* [lo-hi] *)
| Digit                       (* \d : any Unicode decimal digit *)
| Seq (r1 r2 : regex)         (* r1 r2 *)
| Alt (r1 r2 : regex)         (* r1|r2 *)
| Group (g : group) (r : regex).   (* (?P<g>r) *)

(** The text each named group matched, innermost and latest first. *)
Definition groups := list (group * str).

Section matcher.
Context `{Unicode} {A : Type}.

(** A backtracking matcher in continuation-passing style: [k] is given the
    text matched, the text left and the groups so far, and stands for the
    rest of the pattern.  Alternatives are tried from left to right; a
    later one is entered only when the earlier one, followed by the rest
    of the pattern, has failed. *)
Fixpoint rmatch (r : regex) (s : str) (gs : groups)
    (k : str -> str -> groups -> option A) : option A :=
  match r with
  | Chr c =>
      match s with
      | x :: s' => if (x =? c)%N then k [x] s' gs else None
      | [] => None
      end
  | Range lo hi =>
      match s with
      | x :: s' => if ((lo <=? x) && (x <=? hi))%N then k [x] s' gs else None
      | [] => None
      end
  | Digit =>
      match s with
      | x :: s' => match decimal_char x with
                   | Some _ => k [x] s' gs
                   | None => None
                   end
      | [] => None
      end
  | Seq r1 r2 =>
      rmatch r1 s gs (fun m1 s1 g1 =>
      rmatch r2 s1 g1 (fun m2 s2 g2 => k (m1 ++ m2) s2 g2))
  | Alt r1 r2 =>
      match rmatch r1 s gs k with
      | Some a => Some a
      | None => rmatch r2 s gs k
      end
  | Group g r => rmatch r s gs (fun m s' g' => k m s' ((g, m) :: g'))
  end.
End matcher.

(** [pattern.match(s)]: the first match at the start of [s], as the text it
    leaves unread and its groups. *)
Definition re_match `{Unicode} (r : regex) (s : str) : option (str * groups) :=
  rmatch r s [] (fun _ rest gs => Some (rest, gs)).

(** [found.groupdict()[g]] *)
Fixpoint groupdict (gs : groups) (g : group) : str :=
  match gs with
  | [] => []
  | (g', m) :: gs' => if bool_decide (g' = g) then m else groupdict gs' g
  end.

End Re.
Import Re.

(** ** [strptime] and [strftime] for the format [%d.%m.%Y] *)

Module Strptime.

(** The directives of [_strptime.TimeRE]:
    [%d] is [(?P<d>3[0-1]|[1-2]\d|0[1-9]|[1-9]| [1-9])],
    [%m] is [(?P<m>1[0-2]|0[1-9]|[1-9])] and [%Y] is [(?P<Y>\d\d\d\d)]. *)
Definition directive_d : regex :=
  Group g_d
    (Alt (Seq (Chr (ord "3")) (Range (ord "0") (ord "1")))
    (Alt (Seq (Range (ord "1") (ord "2")) Digit)
    (Alt (Seq (Chr (ord "0")) (Range (ord "1") (ord "9")))
    (Alt (Range (ord "1") (ord "9"))
         (Seq (Chr (ord " ")) (Range (ord "1") (ord "9"))))))).

Definition directive_m : regex :=
  Group g_m
    (Alt (Seq (Chr (ord "1")) (Range (ord "0") (ord "2")))
    (Alt (Seq (Chr (ord "0")) (Range (ord "1") (ord "9")))
         (Range (ord "1") (ord "9")))).

Definition directive_Y : regex :=
  Group g_Y (Seq Digit (Seq Digit (Seq Digit Digit))).

(** The pattern compiled from ['%d.%m.%Y']; the dots are escaped. *)
Definition format_regex : regex :=
  Seq directive_d (Seq (Chr (ord "."))
 (Seq directive_m (Seq (Chr (ord "."))
      directive_Y))).

(** [datetime.strptime(data_string, '%d.%m.%Y')] *)
Definition strptime `{Unicode} (data_string : str) : result date :=
  match re_match format_regex data_string with
  | None => Raise (ValueError DoesNotMatchFormat)
  | Some (rest, found) =>
      if negb (bool_decide (rest = [])) then Raise (ValueError UnconvertedDataRemains)
      else
        day ← int (groupdict found g_d);
        month ← int (groupdict found g_m);
        year ← int (groupdict found g_Y);
        check_date_fields year month day
  end.

(** Zero-padded decimal fields. *)
Definition digit (n : Z) : char := Z.to_N (48 + n mod 10).
Definition zfill2 (n : Z) : str := [digit (n / 10); digit n].
Definition zfill4 (n : Z) : str :=
  [digit (n / 1000); digit (n / 100); digit (n / 10); digit n].

(** [%Y] as the C library writes it, to which the interpreter hands the
    directive: the year as a decimal number without padding, 999 and not
    0999.  The year of a date lies between 1 and 9999. *)
Definition year_digits (n : Z) : str :=
  if n <? 10 then [digit n]
  else if n <? 100 then [digit (n / 10); digit n]
  else if n <? 1000 then [digit (n / 100); digit (n / 10); digit n]
  else zfill4 n.

(** [d.strftime('%d.%m.%Y')]: [%d] and [%m] are two digits, [%Y] is the year
    in as many digits as it has. *)
Definition strftime (d : date) : str :=
  zfill2 (day d) ++ [ord "."] ++ zfill2 (month d) ++ [ord "."] ++ year_digits (year d).

End Strptime.
Import Strptime.

(** ** The fields of a record

    Each class of the source is a module: [t] is the type of its objects,
    [init] its constructor and [str] its [__str__].  A field object is never
    mutated once built, so it is modelled by what it holds. *)

Module Name.
Record t := mk { value : Py.str }.

Definition init (value : Py.str) : t := mk value.

Definition str (self : t) : Py.str := value self.
End Name.

Module Phone.
Record t := mk { value : Py.str }.

Definition init `{Unicode} (value : Py.str) : result t :=
  if isdigit value && (length value =? 10)%nat then Ok (mk value)
  else Raise (ValidationError MustHave10Numbers).

Definition str (self : t) : Py.str := value self.
End Phone.

Module Birthday.
Record t := mk { value : date }.

(** [__validation]; [now] is the date [datetime.now()] falls on. *)
Definition validation (now : date) (birthday : date) : result date :=
  if leb birthday now then Ok birthday
  else Raise (ValidationError IncorrectDate).

Definition init `{Unicode} (now : date) (value : Py.str) : result t :=
  except_ValueError
    (birthday ← strptime value;
     checked ← validation now birthday;
     Ok (mk checked))
    InvalidDateFormat.

Definition str (self : t) : Py.str := strftime (value self).
End Birthday.

(** ** Records *)

Module Record.
Record t := mk {
  name : Name.t;
  phones : list Phone.t;
  birthday : option Birthday.t;
}.

Definition set_phones (self : t) (ps : list Phone.t) : t :=
  mk (name self) ps (birthday self).
Definition set_birthday (self : t) (b : Birthday.t) : t :=
  mk (name self) (phones self) (Some b).

(** [Record(name, phone)]; [None] and the empty string are both false
    in [if phone]. *)
Definition init `{Unicode} (name : Py.str) (phone : option Py.str) : result t :=
  ps ← match phone with
       | Some p => if bool_decide (p = []) then Ok []
                   else ph ← Phone.init p; Ok [ph]
       | None => Ok []
       end;
  Ok (mk (Name.init name) ps None).

Definition add_birthday `{Unicode} (now : date) (self : t) (birthday : Py.str)
    : result t :=
  b ← Birthday.init now birthday;
  Ok (set_birthday self b).

(** [[p for p in self.phones if p.value == Phone(phone).value]]:
    [Phone(phone)] is built, and may raise, once for every element. *)
Fixpoint matching_phones `{Unicode} (ps : list Phone.t) (phone : Py.str)
    : result (list Phone.t) :=
  match ps with
  | [] => Ok []
  | p :: ps' =>
      q ← Phone.init phone;
      res ← matching_phones ps' phone;
      Ok (if bool_decide (Phone.value p = Phone.value q) then p :: res else res)
  end.

Definition find_phone `{Unicode} (self : t) (phone : Py.str)
    : result (option Phone.t) :=
  res ← matching_phones (phones self) phone;
  Ok (head res).

Definition add_phone `{Unicode} (self : t) (phone : Py.str) : result t :=
  found ← find_phone self phone;
  match found with
  | None => p ← Phone.init phone; Ok (set_phones self (phones self ++ [p]))
  | Some _ => Ok self
  end.

Definition remove_phone `{Unicode} (self : t) (phone : Py.str) : result t :=
  p ← Phone.init phone;
  i ← index (Phone.value <$> phones self) (Phone.value p);
  Ok (set_phones self (delete i (phones self))).

Definition edit_phone `{Unicode} (self : t) (old_phone new_phone : Py.str)
    : result t :=
  p ← Phone.init old_phone;
  i ← index (Phone.value <$> phones self) (Phone.value p);
  found ← find_phone self new_phone;
  if bool_decide (is_Some found) && negb (bool_decide (old_phone = new_phone))
  then remove_phone self old_phone
  else q ← Phone.init new_phone;
       Ok (set_phones self (<[i := q]> (phones self))).
End Record.

(** [[v.value for v in self.phones]] *)
Definition phone_values (r : Record.t) : list str :=
  Phone.value <$> Record.phones r.

(** The values [Phone] stores: ten characters, each a digit. *)
Definition valid_phone_value `{Unicode} (v : str) : Prop :=
  length v = 10%nat /\ Forall (fun c => isdigit_char c = true) v.

(** The data model's invariant of a record: every phone is valid and no
    two phones hold the same value. *)
Definition record_ok `{Unicode} (r : Record.t) : Prop :=
  Forall (fun p => valid_phone_value (Phone.value p)) (Record.phones r) /\
  NoDup (phone_values r).

(** A birthday held by a record is a calendar date. *)
Definition birthday_ok (r : Record.t) : Prop :=
  forall b, Record.birthday r = Some b -> valid (Birthday.value b).

(** ** The address book *)

(** A reference to a [Record] object, and the objects alive. *)
Definition loc := nat.
Abbreviation heap := (gmap loc Record.t).

Module AddressBook.
(** [self.data] *)
Abbreviation t := (dict loc).

(** An element of the list [get_upcoming_birthdays] returns. *)
Record entry := mk_entry { entry_name : Py.str; entry_birthday : Py.str }.

(** The records the book refers to, in iteration order. *)
Definition values (h : heap) (self : t) : list Record.t :=
  omap (fun l => h !! l) (dict_values self).

(** The loop of [get_upcoming_birthdays] over [self.data.values()],
    [res] being the list built so far. *)
Fixpoint upcoming_loop (now : date) (recs : list Record.t) (res : list entry)
    : result (list entry) :=
  match recs with
  | [] => Ok res
  | rec :: recs' =>
      match Record.birthday rec with
      | None => upcoming_loop now recs' res
      | Some b =>
          birthday ← replace_year (Birthday.value b) (year now);
          birthday ← (if ltb birthday now
                      then replace_year birthday (year now + 1)
                      else Ok birthday);
          if (0 <=? toordinal birthday - toordinal now)
             && (toordinal birthday - toordinal now <=? 7)
          then
            let weekday := weekday birthday in
            birthday ← (if (weekday =? 5) || (weekday =? 6)
                        then add_days birthday (7 - weekday)
                        else Ok birthday);
            upcoming_loop now recs'
              (res ++ [mk_entry (Name.str (Record.name rec)) (strftime birthday)])
          else upcoming_loop now recs' res
      end
  end.

Definition get_upcoming_birthdays (now : date) (h : heap) (self : t)
    : result (list entry) :=
  upcoming_loop now (values h self) [].

(** [self.data[record.name.value] = record]; [None] when [record] is not
    a live reference, which no Python call can pass. *)
Definition add_record (h : heap) (self : t) (record : loc) : option t :=
  r ← h !! record;
  Some (dict_setitem (Name.value (Record.name r)) record self).

Definition find (self : t) (name : Py.str) : option loc :=
  dict_get name self.

Definition delete (self : t) (name : Py.str) : result t :=
  '(_, data) ← dict_pop name self; Ok data.
End AddressBook.

(** ** Date strings, in the specification's words *)

(** The ASCII character of a decimal digit. *)
Definition chr_digit (n : Z) : char := Z.to_N (48 + n).

(** [DDMMYYYY s d]: [s] is written DD.MM.YYYY, two digits of day, two of
    month and four of year between dots, and [d] is the date it names. *)
Inductive DDMMYYYY : str -> date -> Prop :=
| DDMMYYYY_intro d1 d2 m1 m2 y1 y2 y3 y4 :
    Forall (fun n => 0 <= n <= 9) [d1; d2; m1; m2; y1; y2; y3; y4] ->
    DDMMYYYY
      [chr_digit d1; chr_digit d2; ord ".";
       chr_digit m1; chr_digit m2; ord ".";
       chr_digit y1; chr_digit y2; chr_digit y3; chr_digit y4]
      (mkdate (1000 * y1 + 100 * y2 + 10 * y3 + y4) (10 * m1 + m2) (10 * d1 + d2)).

(** The string DD.MM.YYYY that names a date. *)
Definition canonical (d : date) : str :=
  zfill2 (day d) ++ [ord "."] ++ zfill2 (month d) ++ [ord "."] ++ zfill4 (year d).

(** A birthday on 29 February. *)
Definition leap_day (d : date) : Prop := month d = 2 /\ day d = 29.

(** ** The upcoming-birthday window, in the specification's words *)

Module Upcoming.
(** This year's occurrence of a birthday's month and day, and next
    year's. *)
Definition this_year (now b : date) : date :=
  mkdate (year now) (month b) (day b).
Definition next_year (now b : date) : date :=
  mkdate (year now + 1) (month b) (day b).

(** The occurrence looked at: this year's, or next year's when this
    year's has already passed. *)
Definition occurrence (now b : date) : date :=
  if ltb (this_year now b) now then next_year now b else this_year now b.

(** The number of days from today to a date. *)
Definition days_until (now d : date) : Z := toordinal d - toordinal now.

Definition in_window (now d : date) : bool :=
  (0 <=? days_until now d) && (days_until now d <=? 7).

(** A record is kept when it has a birthday whose occurrence is at most
    seven days ahead. *)
Definition qualifies (now : date) (rec : Record.t) : bool :=
  match Record.birthday rec with
  | Some b => in_window now (occurrence now (Birthday.value b))
  | None => false
  end.

(** The date reported for an occurrence: the Monday that follows a
    Saturday or a Sunday, the occurrence itself on any other day. *)
Inductive reported (occ : date) : date -> Prop :=
| reported_saturday rep :
    weekday occ = 5 -> valid rep ->
    toordinal rep = toordinal occ + 2 -> weekday rep = 0 ->
    reported occ rep
| reported_sunday rep :
    weekday occ = 6 -> valid rep ->
    toordinal rep = toordinal occ + 1 -> weekday rep = 0 ->
    reported occ rep
| reported_weekday :
    weekday occ <> 5 -> weekday occ <> 6 -> valid occ ->
    reported occ occ.

(** The entry emitted for a record. *)
Definition entry_of (now : date) (rec : Record.t) (e : AddressBook.entry) : Prop :=
  AddressBook.entry_name e = Name.value (Record.name rec) /\
  exists b rep,
    Record.birthday rec = Some b /\
    reported (occurrence now (Birthday.value b)) rep /\
    AddressBook.entry_birthday e = strftime rep.
End Upcoming.

(** ** Sessions: the states the operations can reach

    A state is the store of records together with one book.  Every
    constructor is a call that returns; a call that raises changes
    nothing.  Each call is made on some day [now]. *)

Record state := mk_state { objects : heap; book : AddressBook.t }.

Definition initial : state := mk_state ∅ [].

Inductive step `{Unicode} : state -> state -> Prop :=
| step_Record σ l name phone r :
    objects σ !! l = None ->
    Record.init name phone = Ok r ->
    step σ (mk_state (<[l := r]> (objects σ)) (book σ))
| step_add_phone σ l r phone r' :
    objects σ !! l = Some r ->
    Record.add_phone r phone = Ok r' ->
    step σ (mk_state (<[l := r']> (objects σ)) (book σ))
| step_remove_phone σ l r phone r' :
    objects σ !! l = Some r ->
    Record.remove_phone r phone = Ok r' ->
    step σ (mk_state (<[l := r']> (objects σ)) (book σ))
| step_edit_phone σ l r old_phone new_phone r' :
    objects σ !! l = Some r ->
    Record.edit_phone r old_phone new_phone = Ok r' ->
    step σ (mk_state (<[l := r']> (objects σ)) (book σ))
| step_add_birthday σ now l r birthday r' :
    objects σ !! l = Some r ->
    Record.add_birthday now r birthday = Ok r' ->
    step σ (mk_state (<[l := r']> (objects σ)) (book σ))
| step_add_record σ l data :
    AddressBook.add_record (objects σ) (book σ) l = Some data ->
    step σ (mk_state (objects σ) data)
| step_delete σ name data :
    AddressBook.delete (book σ) name = Ok data ->
    step σ (mk_state (objects σ) data).

Inductive reachable `{Unicode} : state -> Prop :=
| reachable_initial : reachable initial
| reachable_step σ σ' : reachable σ -> step σ σ' -> reachable σ'.

(** The invariant of a session: every record alive keeps the data model's
    invariant, every entry of the book refers to a record alive under that
    record's name, and no key occurs twice. *)
Definition store_ok `{Unicode} (σ : state) : Prop :=
  (forall l r, objects σ !! l = Some r -> record_ok r) /\
  (forall k l, (k, l) ∈ book σ ->
     exists r, objects σ !! l = Some r /\ Name.value (Record.name r) = k) /\
  dict_wf (book σ).

(** The failures the specification names: ValidationError, the
    DateFormatError of [Birthday] and the NotFoundError of a missing phone
    or contact. *)
Definition typed_error (e : exn) : bool :=
  match e with
  | ValidationError _ => true
  | ValueError InvalidDateFormat => true
  | ValueError (NotInList _) => true
  | KeyError _ => true
  | _ => false
  end.

(** A character database for the code points below 256 (Latin-1), where
    the digits are ['0'] .. ['9'] and the superscripts two, three and one;
    only the former are decimal. *)
Definition latin1_isdigit (c : char) : bool :=
  ((48 <=? c) && (c <=? 57) || (c =? 178) || (c =? 179) || (c =? 185))%N.
Definition latin1_decimal (c : char) : option Z :=
  if ((48 <=? c) && (c <=? 57))%N then Some (Z.of_N c - 48) else None.

Lemma latin1_isdigit_ascii (c : char) :
  (48 <= c <= 57)%N -> latin1_isdigit c = true.
Proof.
  intros Hc. unfold latin1_isdigit.
  destruct (N.leb_spec 48 c), (N.leb_spec c 57); simpl; try reflexivity; lia.
Defined.

Lemma latin1_decimal_ascii (c : char) :
  (48 <= c <= 57)%N -> latin1_decimal c = Some (Z.of_N c - 48).
Proof.
  intros Hc. unfold latin1_decimal.
  destruct (N.leb_spec 48 c), (N.leb_spec c 57); simpl; try reflexivity; lia.
Defined.

Definition latin1 : Unicode :=
  {| isdigit_char := latin1_isdigit; decimal_char := latin1_decimal;
     isdigit_ascii := latin1_isdigit_ascii; decimal_ascii := latin1_decimal_ascii |}.

(** ** Example sessions

    Ann is born on 29 February 2000 and Bob on 1 March 1990; the records are
    built and put in the book by the calls [Record], [add_birthday] and
    [add_record]. *)

Definition ann_new : Record.t := Record.mk (Name.mk (lit "Ann")) [] None.
Definition ann : Record.t :=
  Record.mk (Name.mk (lit "Ann")) [] (Some (Birthday.mk (mkdate 2000 2 29))).
Definition bob_new : Record.t := Record.mk (Name.mk (lit "Bob")) [] None.
Definition bob : Record.t :=
  Record.mk (Name.mk (lit "Bob")) [] (Some (Birthday.mk (mkdate 1990 3 1))).

Definition ann_state : state :=
  mk_state (<[0%nat := ann]> (<[0%nat := ann_new]> ∅)) [(lit "Ann", 0%nat)].

Definition ann_bob_state : state :=
  mk_state
    (<[1%nat := bob]> (<[1%nat := bob_new]> (objects ann_state)))
    [(lit "Ann", 0%nat); (lit "Bob", 1%nat)].

(** The book that holds Bob only. *)
Definition bob_state : state :=
  mk_state (<[0%nat := bob]> (<[0%nat := bob_new]> ∅)) [(lit "Bob", 0%nat)].

(** A record with two phones. *)
Definition two_phones : Record.t :=
  Record.mk (Name.mk (lit "Ann"))
    [Phone.mk (lit "1234567890"); Phone.mk (lit "0987654321")] None.

(** A book of one contact whose birthday, 29 December, falls on a Sunday in
    2024. *)
Definition sunday_heap : heap :=
  {[ 0%nat := Record.mk (Name.mk (lit "Ann")) []
                (Some (Birthday.mk (mkdate 1990 12 29))) ]}.
Definition sunday_book : AddressBook.t := [(lit "Ann", 0%nat)].

(** ** The commands of [project/main.py]

    A command handler receives the words typed after the command and the
    book.  It may change the book and its records before it returns or
    raises, so a handler is a function of the session's state that yields
    the state it leaves together with its outcome. *)

(** [s[i:j]], [s.startswith(prefix)] and [sep.join(l)] *)
Definition slice (i j : nat) (s : str) : str := take (j - i) (drop i s).
Definition startswith (s prefix : str) : bool :=
  bool_decide (take (length prefix) s = prefix).
Fixpoint join (sep : str) (l : list str) : str :=
  match l with
  | [] => []
  | [x] => x
  | x :: l' => x ++ sep ++ join sep l'
  end.

(** [str(n)] for a number that counts. *)
Definition str_of_nat (n : nat) : str := lit (pretty n).

(** [str(ex)] for a [ValueError].  Four of the messages quote a value; they
    are given up to that value, which is enough for the only reader of
    messages, [input_error]: it looks at the characters 1 to 10 and at the
    first twelve, and in each of the four the character 1 is a letter. *)
Definition message (m : value_error) : str :=
  match m with
  | InvalidDateFormat => lit "Invalid date format. Use DD.MM.YYYY"
  | DoesNotMatchFormat => lit "time data "
  | UnconvertedDataRemains => lit "unconverted data remains: "
  | InvalidLiteralForInt => lit "invalid literal for int() with base 10: "
  | YearOutOfRange => lit "year "
  | MonthOutOfRange => lit "month must be in 1..12"
  | DayOutOfRange => lit "day is out of range for month"
  | NotInList x => lit "'" ++ x ++ lit "' is not in list"
  end.

Module Main.

(** What a handler can raise: an exception of the classes, or one of the
    three the handlers cause themselves. *)
Inductive raised :=
| Core (e : exn)
| IndexError                         (* args[0] on an empty list *)
| UnpackError (expected got : nat)   (* a ValueError: too few values to unpack *)
| AttributeError.                    (* an attribute of None *)

Inductive outcome (A : Type) :=
| Return (a : A)
| Throw (e : raised).
Arguments Return {A} a.
Arguments Throw {A} e.

(** What a decorated handler hands to [print]: a string, the
    [ValidationError] it caught, or the book. *)
Inductive reply :=
| Text (s : str)
| Caught (m : validation_error)
| Book.

(** A computation on the session.  [None] stands for the use of a reference
    to no object, which no run of the program makes. *)
Definition cmd (A : Type) : Type := state -> option (state * outcome A).

#[export] Instance cmd_ret : MRet cmd := fun A a σ => Some (σ, Return a).
#[export] Instance cmd_bind : MBind cmd := fun A B f m σ =>
  match m σ with
  | Some (σ', Return a) => f a σ'
  | Some (σ', Throw e) => Some (σ', Throw e)
  | None => None
  end.

Definition throw {A} (e : raised) : cmd A := fun σ => Some (σ, Throw e).

(** [Record(name)]: a new object. *)
Definition new_Record `{Unicode} (name : str) : cmd loc := fun σ =>
  match Record.init name None with
  | Ok r => let l := fresh (dom (objects σ)) in
            Some (mk_state (<[l := r]> (objects σ)) (book σ), Return l)
  | Raise e => Some (σ, Throw (Core e))
  end.

(** The object behind a reference. *)
Definition deref (record : loc) : cmd Record.t := fun σ =>
  r ← objects σ !! record; Some (σ, Return r).

(** A call [record.m(...)] of a method that mutates the object. *)
Definition method (record : loc) (m : Record.t -> result Record.t) : cmd unit :=
  fun σ =>
    r ← objects σ !! record;
    Some (match m r with
          | Ok r' => (mk_state (<[record := r']> (objects σ)) (book σ), Return ())
          | Raise e => (σ, Throw (Core e))
          end).

(** The methods of the book. *)
Definition book_find (name : str) : cmd (option loc) := fun σ =>
  Some (σ, Return (AddressBook.find (book σ) name)).

Definition book_add_record (record : loc) : cmd unit := fun σ =>
  data ← AddressBook.add_record (objects σ) (book σ) record;
  Some (mk_state (objects σ) data, Return ()).

Definition book_delete (name : str) : cmd unit := fun σ =>
  Some (match AddressBook.delete (book σ) name with
        | Ok data => (mk_state (objects σ) data, Return ())
        | Raise e => (σ, Throw (Core e))
        end).

Definition book_get_upcoming_birthdays (now : date) : cmd (list AddressBook.entry) :=
  fun σ =>
    Some (σ, match AddressBook.get_upcoming_birthdays now (objects σ) (book σ) with
             | Ok res => Return res
             | Raise e => Throw (Core e)
             end).

(** The message of the ValueError of [a, b, *_ = args] on a list too
    short. *)
Definition unpack_message (expected got : nat) : str :=
  lit "not enough values to unpack (expected at least " ++ str_of_nat expected ++
  lit ", got " ++ str_of_nat got ++ lit ")".

(** The [except (ValueError, IndexError)] clause of [input_error], on the
    message [text] of the exception. *)
Definition except_ValueError_IndexError `{Unicode} (text : str) : reply :=
  if isdigit (slice 1 11 text) || startswith text (lit "Invalid date")
  then Text (text ++ lit ".")
  else Text (lit "Enter the argument for the command.").

(** The decorator: [ValidationError] is not a [ValueError], and an
    exception of no listed class goes through. *)
Definition input_error `{Unicode} (func : cmd reply) : cmd reply := fun σ =>
  match func σ with
  | Some (σ', Throw e) =>
      Some (σ', match e with
                | Core (ValidationError m) => Return (Caught m)
                | Core (ValueError m) =>
                    Return (except_ValueError_IndexError (message m))
                | UnpackError expected got =>
                    Return (except_ValueError_IndexError (unpack_message expected got))
                | IndexError =>
                    Return (except_ValueError_IndexError (lit "list index out of range"))
                | AttributeError | Core (KeyError _) =>
                    Return (Text (lit "Contact not found."))
                | Core OverflowError => Throw e
                end)
  | r => r
  end.

(** The bodies of the handlers, before decoration. *)
Module func.

Definition add_contact `{Unicode} (args : list str) : cmd reply :=
  '(name, phone) ← match args with
                   | name :: phone :: _ => mret (name, Some phone)
                   | [name] => mret (name, None)
                   | [] => throw IndexError
                   end;
  found ← book_find name;
  '(record, msg) ← match found with
                   | Some record => mret (record, lit "Contact update.")
                   | None =>
                       record ← new_Record name;
                       book_add_record record;;
                       mret (record, lit "Contact added.")
                   end;
  match phone with
  | Some p => if bool_decide (p = []) then mret ()
              else method record (fun r => Record.add_phone r p)
  | None => mret ()
  end;;
  mret (Text msg).

Definition change_contact `{Unicode} (args : list str) : cmd reply :=
  match args with
  | name :: old_phone :: new_phone :: _ =>
      found ← book_find name;
      match found with
      | Some record => method record (fun r => Record.edit_phone r old_phone new_phone)
      | None => throw AttributeError
      end;;
      mret (Text (lit "Contact changed."))
  | _ => throw (UnpackError 3 (length args))
  end.

Definition remove_phone `{Unicode} (args : list str) : cmd reply :=
  match args with
  | name :: phone :: _ =>
      found ← book_find name;
      match found with
      | Some record => method record (fun r => Record.remove_phone r phone)
      | None => throw AttributeError
      end;;
      mret (Text (lit "Phone remove."))
  | _ => throw (UnpackError 2 (length args))
  end.

Definition delete_contact (args : list str) : cmd reply :=
  match args with
  | name :: _ =>
      book_delete name;;
      mret (Text (lit "Contact delete."))
  | _ => throw (UnpackError 1 (length args))
  end.

Definition show_phone (args : list str) : cmd reply :=
  match args with
  | name :: _ =>
      found ← book_find name;
      match found with
      | Some record =>
          r ← deref record;
          mret (Text (lit "Phones: " ++ join (lit "; ") (Phone.str <$> Record.phones r)))
      | None => throw AttributeError
      end
  | _ => throw (UnpackError 1 (length args))
  end.

Definition show_all_contacts : cmd reply := mret Book.

Definition add_birthday `{Unicode} (now : date) (args : list str) : cmd reply :=
  match args with
  | name :: birthday :: _ =>
      found ← book_find name;
      match found with
      | Some record =>
          r ← deref record;
          let msg := match Record.birthday r with
                     | None => lit "Birthday added."
                     | Some _ => lit "Birthday update."
                     end in
          method record (fun r => Record.add_birthday now r birthday);;
          mret (Text msg)
      | None => throw AttributeError
      end
  | _ => throw (UnpackError 2 (length args))
  end.

Definition show_birthday (args : list str) : cmd reply :=
  match args with
  | name :: _ =>
      found ← book_find name;
      match found with
      | Some record =>
          r ← deref record;
          mret (Text (lit "Birthday: " ++
                      match Record.birthday r with
                      | Some b => Birthday.str b
                      | None => lit "None"
                      end))
      | None => throw AttributeError
      end
  | _ => throw (UnpackError 1 (length args))
  end.

(** The loop of [birthdays] over the list of entries. *)
Fixpoint birthdays_loop (ds : list AddressBook.entry) (count_rec : nat) (res : str)
    : str :=
  match ds with
  | [] => res
  | d :: ds' =>
      birthdays_loop ds' (S count_rec)
        (res ++ str_of_nat count_rec ++ lit ". Contact name: " ++
         AddressBook.entry_name d ++ lit ", birthday: " ++
         AddressBook.entry_birthday d ++ lit ";" ++ [10%N])
  end.

Definition birthdays (now : date) : cmd reply :=
  ds ← book_get_upcoming_birthdays now;
  mret (Text (birthdays_loop ds 1 [])).

End func.

(** The handlers as [main] calls them. *)
Definition add_contact `{Unicode} (args : list str) : cmd reply :=
  input_error (func.add_contact args).
Definition change_contact `{Unicode} (args : list str) : cmd reply :=
  input_error (func.change_contact args).
Definition remove_phone `{Unicode} (args : list str) : cmd reply :=
  input_error (func.remove_phone args).
Definition delete_contact `{Unicode} (args : list str) : cmd reply :=
  input_error (func.delete_contact args).
Definition show_phone `{Unicode} (args : list str) : cmd reply :=
  input_error (func.show_phone args).
Definition show_all_contacts `{Unicode} : cmd reply :=
  input_error func.show_all_contacts.
Definition add_birthday `{Unicode} (now : date) (args : list str) : cmd reply :=
  input_error (func.add_birthday now args).
Definition show_birthday `{Unicode} (args : list str) : cmd reply :=
  input_error (func.show_birthday args).
Definition birthdays `{Unicode} (now : date) : cmd reply :=
  input_error (func.birthdays now).

End Main.

(** A handler answers: from a session that keeps the invariant it returns a
    reply, having changed the session by calls of the classes only. *)
Definition answers `{Unicode} (handler : Main.cmd Main.reply) : Prop :=
  forall σ, store_ok σ ->
    exists σ' r, handler σ = Some (σ', Main.Return r) /\ rtc step σ σ' /\ store_ok σ'.

(** A computation runs safely from a state: it ends, having changed the
    session by calls of the classes only, and what it raises [input_error]
    catches. *)
Definition safe `{Unicode} {A} (m : Main.cmd A) (σ : state) : Prop :=
  exists σ' out, m σ = Some (σ', out) /\ rtc step σ σ' /\
    forall e, out = Main.Throw e -> e <> Main.Core OverflowError.

(** [σ'] is [σ] with one more object, a record of that name and those
    phones with no birthday, put in the book under its name. *)
Definition added (σ σ' : state) (name : str) (phones : list Phone.t) : Prop :=
  exists l, objects σ !! l = None /\
    objects σ' = <[l := Record.mk (Name.mk name) phones None]> (objects σ) /\
    book σ' = book σ ++ [(name, l)].

(** No ASCII character other than ['0'] .. ['9'] is a digit. *)
Definition ascii_digits `{Unicode} : Prop :=
  forall c : char, (c < 128)%N -> isdigit_char c = true -> (48 <= c <= 57)%N.

(** * Properties *)

(** ** Calendar arithmetic *)

Lemma dby_decomp a b c d :
  0 <= b <= 3 -> 0 <= c <= 24 -> 0 <= d <= 3 ->
  days_before_year (400 * a + 100 * b + 4 * c + d + 1) =
  146097 * a + 36524 * b + 1461 * c + 365 * d.
Proof.
  intros. unfold days_before_year. cbv zeta.
  Z.div_mod_to_equations. lia.
Qed.

Lemma is_leap_decomp a b c d :
  0 <= b <= 3 -> 0 <= c <= 24 -> 0 <= d <= 3 ->
  is_leap (400 * a + 100 * b + 4 * c + d + 1) =
  (d =? 3) && (negb (c =? 24) || (b =? 3)).
Proof.
  intros. unfold is_leap.
  repeat match goal with |- context [?x =? ?y] => destruct (Z.eqb_spec x y) end;
    simpl; try reflexivity; exfalso; Z.div_mod_to_equations; lia.
Qed.

Lemma month_day_ok_all (leapyear : bool) (n : Z) :
  0 <= n < 365 + (if leapyear then 1 else 0) -> month_day_ok leapyear n = true.
Proof.
  intros Hn.
  assert (H : forall l : bool,
             forallb (month_day_ok l) (seqZ 0 (365 + (if l then 1 else 0))) = true)
    by (intros []; vm_compute; reflexivity).
  specialize (H leapyear). rewrite forallb_forall in H.
  apply H, list_elem_of_In, elem_of_seqZ. lia.
Qed.

Lemma ord2ymd_month_day n :
  ord2ymd n =
  let n := n - 1 in
  let n400 := n / DI400Y in let n := n mod DI400Y in
  let n100 := n / DI100Y in let n := n mod DI100Y in
  let n4 := n / DI4Y in let n := n mod DI4Y in
  let n1 := n / 365 in let n := n mod 365 in
  let y := n400 * 400 + 1 + n100 * 100 + n4 * 4 + n1 in
  if (n1 =? 4) || (n100 =? 4) then (y - 1, 12, 31)
  else let '(m, d) := month_day ((n1 =? 3) && (negb (n4 =? 24) || (n100 =? 3))) n in
       (y, m, d).
Proof.
  unfold ord2ymd, month_day. cbv zeta.
  destruct (_ || _); [reflexivity|].
  destruct (_ <? _); reflexivity.
Qed.

Lemma ord2ymd_spec n :
  1 <= n <= MAXORDINAL ->
  valid (fromordinal n) /\ toordinal (fromordinal n) = n.
Proof.
  intros Hn. unfold fromordinal, toordinal. rewrite ord2ymd_month_day. cbv zeta.
  unfold MAXORDINAL, DI400Y, DI100Y, DI4Y in *.
  set (a := (n - 1) / 146097). set (r1 := (n - 1) mod 146097).
  set (b := r1 / 36524). set (r2 := r1 mod 36524).
  set (c := r2 / 1461). set (r3 := r2 mod 1461).
  set (d := r3 / 365). set (r := r3 mod 365).
  assert (Ha : n - 1 = 146097 * a + r1 /\ 0 <= r1 < 146097 /\ 0 <= a <= 24)
    by (subst a r1; Z.div_mod_to_equations; lia).
  assert (Hb : r1 = 36524 * b + r2 /\ 0 <= r2 < 36524 /\ 0 <= b <= 4)
    by (subst b r2; Z.div_mod_to_equations; lia).
  assert (Hc : r2 = 1461 * c + r3 /\ 0 <= r3 < 1461 /\ 0 <= c <= 24)
    by (subst c r3; Z.div_mod_to_equations; lia).
  assert (Hd : r3 = 365 * d + r /\ 0 <= r < 365 /\ 0 <= d <= 4)
    by (subst d r; Z.div_mod_to_equations; lia).
  clearbody a r1 b r2 c r3 d r.
  destruct (Z.eqb_spec d 4) as [Hd4|Hd4]; [|destruct (Z.eqb_spec b 4) as [Hb4|Hb4]]; simpl orb; cbv iota.
  - (* the last day of a four-year cycle *)
    assert (c <= 23 /\ b <= 3 /\ r = 0) as (? & ? & ->) by lia. subst d.
    replace (a * 400 + 1 + b * 100 + c * 4 + 4 - 1) with (400 * a + 100 * b + 4 * c + 3 + 1) by lia.
    unfold valid, ymd2ord, days_in_month, days_before_month; simpl.
    rewrite dby_decomp, is_leap_decomp by lia. simpl.
    destruct (Z.eqb_spec c 24); [lia|]. simpl. lia.
  - (* the last day of a 400-year cycle *)
    assert (c = 0 /\ d = 0 /\ r = 0) as (-> & -> & ->) by lia. subst b.
    replace (a * 400 + 1 + 4 * 100 + 0 * 4 + 0 - 1) with (400 * a + 100 * 3 + 4 * 24 + 3 + 1) by lia.
    unfold valid, ymd2ord, days_in_month, days_before_month; simpl.
    rewrite dby_decomp, is_leap_decomp by lia. simpl. lia.
  - set (leap := (d =? 3) && (negb (c =? 24) || (b =? 3))).
    assert (Hr : 0 <= r < 365 + (if leap then 1 else 0)).
    { destruct leap; lia. }
    pose proof (month_day_ok_all leap r Hr) as Hok. unfold month_day_ok in Hok.
    destruct (month_day leap r) as [m dd].
    replace (a * 400 + 1 + b * 100 + c * 4 + d) with (400 * a + 100 * b + 4 * c + d + 1) by lia.
    unfold valid, ymd2ord, days_in_month, days_before_month; simpl.
    rewrite dby_decomp, is_leap_decomp by lia. fold leap.
    repeat (apply andb_prop in Hok as [Hok ?]).
    destruct ((m =? 2) && leap), ((2 <? m) && leap); lia.
Qed.

Lemma days_before_year_succ y :
  days_before_year (y + 1) = days_before_year y + 365 + (if is_leap y then 1 else 0).
Proof.
  unfold days_before_year, is_leap. cbv zeta.
  repeat match goal with |- context [?x =? ?y] => destruct (Z.eqb_spec x y) end;
    simpl; Z.div_mod_to_equations; lia.
Qed.

Lemma days_before_year_mono y1 y2 :
  y1 <= y2 -> days_before_year y1 <= days_before_year y2.
Proof. unfold days_before_year. cbv zeta. intros. Z.div_mod_to_equations. lia. Qed.

Ltac month_cases m :=
  let H := fresh in
  assert (H : m = 1 \/ m = 2 \/ m = 3 \/ m = 4 \/ m = 5 \/ m = 6 \/
              m = 7 \/ m = 8 \/ m = 9 \/ m = 10 \/ m = 11 \/ m = 12) by lia;
  repeat (destruct H as [H|H]); subst m.

Lemma day_of_year_bounds d :
  valid d ->
  1 <= days_before_month (year d) (month d) + day d
    <= 365 + (if is_leap (year d) then 1 else 0).
Proof.
  destruct d as [y m dd]. unfold valid, days_before_month, days_in_month. simpl.
  intros (Hy & Hm & Hd). month_cases m; simpl in *; destruct (is_leap y); simpl in *; lia.
Qed.

Lemma toordinal_range d : valid d -> 1 <= toordinal d <= MAXORDINAL.
Proof.
  intros Hv. pose proof (day_of_year_bounds d Hv) as Hb.
  destruct Hv as (Hy & _). unfold toordinal, ymd2ord, MAXORDINAL.
  pose proof (days_before_year_mono 1 (year d) ltac:(lia)).
  pose proof (days_before_year_mono (year d + 1) 10000 ltac:(lia)).
  rewrite days_before_year_succ in *.
  change (days_before_year 1) with 0 in *.
  change (days_before_year 10000) with 3652059 in *. lia.
Qed.

Lemma toordinal_lt a b :
  valid a -> valid b -> ltb a b = true -> toordinal a < toordinal b.
Proof.
  intros Ha Hb Hlt.
  pose proof (day_of_year_bounds a Ha). pose proof (day_of_year_bounds b Hb).
  unfold toordinal, ymd2ord. unfold ltb in Hlt.
  destruct (Z.ltb_spec (year a) (year b)) as [Hy|Hy]; simpl in Hlt.
  { pose proof (days_before_year_mono (year a + 1) (year b) ltac:(lia)).
    rewrite days_before_year_succ in *. lia. }
  destruct (Z.eqb_spec (year a) (year b)) as [Hy'|]; [|discriminate]. simpl in Hlt.
  rewrite Hy' in *.
  destruct a as [ya ma da], b as [yb mb db]; simpl in *. subst ya.
  destruct Ha as (_ & Hma & Hda), Hb as (_ & Hmb & Hdb); simpl in *.
  unfold days_before_month, days_in_month in *.
  destruct (Z.ltb_spec ma mb) as [Hm|Hm]; simpl in Hlt.
  - month_cases ma; month_cases mb; try lia; simpl in *; destruct (is_leap yb); simpl in *; lia.
  - destruct (Z.eqb_spec ma mb) as [->|]; [|discriminate]. simpl in Hlt.
    apply Z.ltb_lt in Hlt. lia.
Qed.

Lemma ltb_trichotomy a b : ltb a b = true \/ a = b \/ ltb b a = true.
Proof.
  destruct a as [ya ma da], b as [yb mb db]. unfold ltb; simpl.
  destruct (Z.ltb_spec ya yb), (Z.ltb_spec yb ya), (Z.eqb_spec ya yb),
    (Z.eqb_spec yb ya), (Z.ltb_spec ma mb), (Z.ltb_spec mb ma), (Z.eqb_spec ma mb),
    (Z.eqb_spec mb ma), (Z.ltb_spec da db), (Z.ltb_spec db da); simpl; try lia; auto.
  right; left. f_equal; lia.
Qed.

Lemma ltb_toordinal a b :
  valid a -> valid b -> ltb a b = (toordinal a <? toordinal b).
Proof.
  intros Ha Hb. destruct (Z.ltb_spec (toordinal a) (toordinal b)) as [H|H].
  - destruct (ltb_trichotomy a b) as [?|[->|Hba]]; [done|lia|].
    apply toordinal_lt in Hba; [lia|done..].
  - destruct (ltb a b) eqn:E; [|done]. apply toordinal_lt in E; [lia|done..].
Qed.

Lemma toordinal_inj a b : valid a -> valid b -> toordinal a = toordinal b -> a = b.
Proof.
  intros Ha Hb Heq. destruct (ltb_trichotomy a b) as [H|[?|H]]; [|done|];
    apply toordinal_lt in H; try done; lia.
Qed.

Lemma fromordinal_toordinal d : valid d -> fromordinal (toordinal d) = d.
Proof.
  intros Hv. pose proof (toordinal_range d Hv) as Hr.
  destruct (ord2ymd_spec _ Hr) as [Hv' Heq]. by apply toordinal_inj.
Qed.

Lemma weekday_add_days d k d' :
  add_days d k = Ok d' ->
  valid d' /\ toordinal d' = toordinal d + k /\ weekday d' = (weekday d + k) mod 7.
Proof.
  unfold add_days. intros H.
  destruct (Z.ltb_spec 0 (toordinal d + k)), (Z.leb_spec (toordinal d + k) MAXORDINAL);
    simpl in H; try discriminate.
  injection H as <-. destruct (ord2ymd_spec (toordinal d + k)) as [Hv Heq]; [lia|].
  split; [done|]. split; [done|]. unfold weekday. rewrite Heq.
  Z.div_mod_to_equations. lia.
Qed.

(** ** Parsing and rendering dates *)

Section strptime.
Context `{Unicode}.

Lemma decimal_digit n : decimal_char (digit n) = Some (n mod 10).
Proof.
  unfold digit. rewrite decimal_ascii.
  - f_equal. pose proof (Z.mod_pos_bound n 10). lia.
  - pose proof (Z.mod_pos_bound n 10). lia.
Qed.

Lemma match_option_id {A} (o : option A) :
  match o with Some a => Some a | None => None end = o.
Proof. by destruct o. Qed.

Ltac day_cases dd :=
  let H := fresh in
  assert (H : dd = 1 \/ dd = 2 \/ dd = 3 \/ dd = 4 \/ dd = 5 \/ dd = 6 \/ dd = 7 \/
              dd = 8 \/ dd = 9 \/ dd = 10 \/ dd = 11 \/ dd = 12 \/ dd = 13 \/
              dd = 14 \/ dd = 15 \/ dd = 16 \/ dd = 17 \/ dd = 18 \/ dd = 19 \/
              dd = 20 \/ dd = 21 \/ dd = 22 \/ dd = 23 \/ dd = 24 \/ dd = 25 \/
              dd = 26 \/ dd = 27 \/ dd = 28 \/ dd = 29 \/ dd = 30 \/ dd = 31) by lia;
  repeat (destruct H as [H|H]); subst dd.

Ltac norm_chars :=
  repeat match goal with
  | |- context [zfill2 ?n] =>
      let v := eval vm_compute in (zfill2 n) in change (zfill2 n) with v
  | |- context [ord ?a] =>
      let v := eval vm_compute in (ord a) in change (ord a) with v
  end.

Lemma rmatch_day {A} (dd : Z) (R : regex) rest gs (k : str -> str -> groups -> option A) :
  1 <= dd <= 31 ->
  rmatch (Seq directive_d (Seq (Chr (ord ".")) R)) (zfill2 dd ++ ord "." :: rest) gs k
  = rmatch R rest ((g_d, zfill2 dd) :: gs)
      (fun m s g => k (zfill2 dd ++ [ord "."] ++ m) s g).
Proof.
  intros Hdd. unfold directive_d.
  day_cases dd; norm_chars; cbn; rewrite ?(decimal_ascii _) by lia; cbn;
    rewrite ?match_option_id; reflexivity.
Qed.
Lemma rmatch_month {A} (m : Z) (R : regex) rest gs (k : str -> str -> groups -> option A) :
  1 <= m <= 12 ->
  rmatch (Seq directive_m (Seq (Chr (ord ".")) R)) (zfill2 m ++ ord "." :: rest) gs k
  = rmatch R rest ((g_m, zfill2 m) :: gs)
      (fun t s g => k (zfill2 m ++ [ord "."] ++ t) s g).
Proof.
  intros Hm. unfold directive_m.
  month_cases m; norm_chars; cbn; rewrite ?match_option_id; reflexivity.
Qed.

Lemma rmatch_year {A} (y : Z) rest gs (k : str -> str -> groups -> option A) :
  rmatch directive_Y (zfill4 y ++ rest) gs k
  = k (zfill4 y) rest ((g_Y, zfill4 y) :: gs).
Proof. unfold directive_Y, zfill4. cbn. rewrite !decimal_digit. reflexivity. Qed.

Lemma digit_not_blank n s : lstrip (digit n :: s) = digit n :: s.
Proof.
  cbn. destruct (N.eqb_spec (digit n) 32) as [E|]; [|done].
  unfold digit in E. pose proof (Z.mod_pos_bound n 10). lia.
Qed.

Lemma int_zfill2 n : 0 <= n <= 99 -> int (zfill2 n) = Ok n.
Proof.
  intros Hn. unfold int, zfill2. rewrite digit_not_blank. cbn.
  rewrite !decimal_digit. f_equal. Z.div_mod_to_equations. lia.
Qed.

Lemma int_zfill4 n : 0 <= n <= 9999 -> int (zfill4 n) = Ok n.
Proof.
  intros Hn. unfold int, zfill4. rewrite digit_not_blank. cbn.
  rewrite !decimal_digit. f_equal. Z.div_mod_to_equations. lia.
Qed.

Lemma days_in_month_le y m : days_in_month y m <= 31.
Proof.
  unfold days_in_month. destruct (_ && _); [lia|].
  unfold DAYS_IN_MONTH. destruct m as [|p|p]; [lia| |lia].
  do 4 (try destruct p as [p|p|]; try lia).
Qed.

Lemma check_date_fields_valid y m d :
  valid (mkdate y m d) -> check_date_fields y m d = Ok (mkdate y m d).
Proof.
  unfold valid, check_date_fields, MINYEAR, MAXYEAR. simpl. intros (Hy & Hm & Hd).
  repeat match goal with |- context [?a <=? ?b] => destruct (Z.leb_spec a b); try lia end.
  reflexivity.
Qed.

Lemma strptime_canonical d : valid d -> strptime (canonical d) = Ok d.
Proof.
  intros Hv. pose proof Hv as (Hy & Hm & Hd).
  pose proof (days_in_month_le (year d) (month d)).
  unfold strptime, re_match, format_regex.
  replace (canonical d) with
    (zfill2 (day d) ++ ord "." :: (zfill2 (month d) ++ ord "." :: (zfill4 (year d) ++ [])))
    by (unfold canonical; by rewrite app_nil_r).
  rewrite rmatch_day by lia. rewrite rmatch_month by lia.
  rewrite rmatch_year. cbv beta iota. simpl negb. cbv iota.
  unfold groupdict. repeat (case_bool_decide; try discriminate; try congruence).
  rewrite !int_zfill2, int_zfill4 by lia. cbn.
  destruct d. by apply check_date_fields_valid.
Qed.

Lemma strftime_canonical d : 1000 <= year d -> strftime d = canonical d.
Proof.
  intros Hy. unfold strftime, canonical, year_digits.
  repeat match goal with |- context [?a <? ?b] => destruct (Z.ltb_spec a b); try lia end.
  reflexivity.
Qed.

Lemma strptime_strftime d :
  valid d -> 1000 <= year d -> strptime (strftime d) = Ok d.
Proof. intros Hv Hy. rewrite strftime_canonical by done. by apply strptime_canonical. Qed.

(** A year below 1000 is written in fewer than four digits, which [%Y]
    does not read. *)
Lemma rmatch_year_short {A} (y : Z) gs (k : str -> str -> groups -> option A) :
  y < 1000 -> rmatch directive_Y (year_digits y ++ []) gs k = None.
Proof.
  intros Hy. unfold year_digits, directive_Y.
  repeat match goal with |- context [?a <? ?b] => destruct (Z.ltb_spec a b); try lia end;
    cbn; rewrite ?decimal_digit; reflexivity.
Qed.

Lemma strptime_strftime_short d :
  valid d -> year d < 1000 ->
  strptime (strftime d) = Raise (ValueError DoesNotMatchFormat).
Proof.
  intros (Hy & Hm & Hd) Hlt. pose proof (days_in_month_le (year d) (month d)).
  unfold strptime, re_match, format_regex.
  replace (strftime d) with
    (zfill2 (day d) ++ ord "." ::
       (zfill2 (month d) ++ ord "." :: (year_digits (year d) ++ [])))
    by (unfold strftime; by rewrite app_nil_r).
  rewrite rmatch_day by lia. rewrite rmatch_month by lia.
  by rewrite rmatch_year_short.
Qed.
End strptime.

(** ** Phones and the methods of a record *)

Section record.
Context `{Unicode}.

Lemma bind_Ok {A B} (a : A) (f : A -> result B) : (Ok a ≫= f) = f a.
Proof. reflexivity. Qed.

Lemma bind_Raise {A B} e (f : A -> result B) : (Raise e ≫= f) = Raise e.
Proof. reflexivity. Qed.

Lemma isdigit_spec (s : str) :
  isdigit s = true <-> s <> [] /\ Forall (fun c => isdigit_char c = true) s.
Proof.
  unfold isdigit. rewrite andb_true_iff, negb_true_iff, bool_decide_eq_false.
  rewrite forallb_forall, Forall_forall. setoid_rewrite list_elem_of_In. tauto.
Qed.

Lemma Phone_init_Ok v : valid_phone_value v -> Phone.init v = Ok (Phone.mk v).
Proof.
  intros [Hlen Hdig]. unfold Phone.init.
  assert (isdigit v = true) as ->.
  { apply isdigit_spec. split; [|done]. by intros ->. }
  rewrite Hlen. reflexivity.
Qed.

Lemma Phone_init_Raise v :
  ~ valid_phone_value v -> Phone.init v = Raise (ValidationError MustHave10Numbers).
Proof.
  intros Hn. unfold Phone.init.
  destruct (isdigit v) eqn:Hd; [|done].
  destruct (Nat.eqb_spec (length v) 10) as [Hl|]; [|done].
  exfalso. apply Hn. split; [done|]. by apply isdigit_spec in Hd as [_ ?].
Qed.

Lemma Phone_init_inv v p :
  Phone.init v = Ok p -> p = Phone.mk v /\ valid_phone_value v.
Proof.
  intros Hp. destruct (decide (length v = 10%nat)) as [Hl|Hl].
  - unfold Phone.init in Hp. destruct (isdigit v) eqn:Hd.
    + apply isdigit_spec in Hd as [_ Hd]. rewrite Hl in Hp. simpl in Hp.
      split; [congruence|done].
    + discriminate.
  - rewrite Phone_init_Raise in Hp; [discriminate|]. by intros [? _].
Qed.

Lemma valid_phone_value_dec v : Decision (valid_phone_value v).
Proof.
  unfold valid_phone_value.
  assert (forall c, Decision (isdigit_char c = true)) by (intros; apply _).
  apply _.
Defined.

Lemma index_elem_of (l : list str) x :
  x ∈ l -> exists i, index l x = Ok i /\ l !! i = Some x.
Proof.
  induction l as [|y l IH]; [by intros ?%elem_of_nil|].
  intros Hin. simpl. case_bool_decide as Hy.
  - exists 0%nat. by subst.
  - apply elem_of_cons in Hin as [->|Hin]; [done|].
    destruct (IH Hin) as (i & -> & Hi). by exists (S i).
Qed.

Lemma index_not_elem_of (l : list str) x :
  x ∉ l -> index l x = Raise (ValueError (NotInList x)).
Proof.
  induction l as [|y l IH]; [done|].
  intros Hin. apply not_elem_of_cons in Hin as [Hne Hin]. simpl.
  case_bool_decide; [congruence|]. by rewrite IH.
Qed.

Lemma index_Ok (l : list str) x i : index l x = Ok i -> l !! i = Some x.
Proof.
  destruct (decide (x ∈ l)) as [Hin|Hin].
  - destruct (index_elem_of l x Hin) as (j & -> & Hj). congruence.
  - by rewrite index_not_elem_of.
Qed.

Lemma matching_phones_valid ps phone :
  valid_phone_value phone ->
  Record.matching_phones ps phone = Ok (filter (fun p => Phone.value p = phone) ps).
Proof.
  intros Hv. induction ps as [|p ps IH]; [done|].
  simpl. rewrite (Phone_init_Ok _ Hv), bind_Ok, IH, bind_Ok. simpl.
  rewrite filter_cons. case_bool_decide; by case_decide.
Qed.

Lemma matching_phones_invalid ps phone :
  ~ valid_phone_value phone -> ps <> [] ->
  Record.matching_phones ps phone = Raise (ValidationError MustHave10Numbers).
Proof.
  intros Hv Hps. destruct ps as [|p ps]; [done|]. simpl.
  by rewrite (Phone_init_Raise _ Hv).
Qed.

Lemma find_phone_valid r phone :
  valid_phone_value phone ->
  Record.find_phone r phone =
    Ok (head (filter (fun p => Phone.value p = phone) (Record.phones r))).
Proof. intros Hv. unfold Record.find_phone. by rewrite matching_phones_valid. Qed.

Lemma head_filter_is_Some (ps : list Phone.t) phone :
  is_Some (head (filter (fun p => Phone.value p = phone) ps)) <->
  phone ∈ Phone.value <$> ps.
Proof.
  rewrite list_elem_of_fmap. split.
  - intros [p Hp]. apply head_Some_elem_of in Hp.
    apply list_elem_of_filter in Hp as [Hp1 Hp2]. eauto.
  - intros (p & -> & Hp).
    assert (Hin : p ∈ filter (fun q => Phone.value q = Phone.value p) ps)
      by (by apply list_elem_of_filter).
    destruct (filter _ ps); [by apply elem_of_nil in Hin|]. by eexists.
Qed.
Lemma add_phone_cases r phone :
  (valid_phone_value phone /\
   ((phone ∈ phone_values r /\ Record.add_phone r phone = Ok r) \/
    ((phone ∉ phone_values r) /\
     Record.add_phone r phone =
       Ok (Record.set_phones r (Record.phones r ++ [Phone.mk phone])))))
  \/ (~ valid_phone_value phone /\
      Record.add_phone r phone = Raise (ValidationError MustHave10Numbers)).
Proof.
  unfold Record.add_phone, phone_values.
  destruct (valid_phone_value_dec phone) as [Hv|Hv]; [left|right]; split; try done.
  - rewrite (find_phone_valid _ _ Hv), bind_Ok.
    destruct (head _) as [p|] eqn:Hh.
    + left. split; [|done]. apply head_filter_is_Some. by rewrite Hh.
    + right. rewrite (Phone_init_Ok _ Hv), bind_Ok. split; [|done].
      intros Hin%head_filter_is_Some. rewrite Hh in Hin. by destruct Hin.
  - unfold Record.find_phone. destruct (Record.phones r) as [|p ps] eqn:Hps.
    + simpl. by rewrite (Phone_init_Raise _ Hv).
    + by rewrite matching_phones_invalid.
Qed.

Lemma remove_phone_cases r phone :
  (exists i, valid_phone_value phone /\
     index (phone_values r) phone = Ok i /\ phone_values r !! i = Some phone /\
     Record.remove_phone r phone = Ok (Record.set_phones r (delete i (Record.phones r))))
  \/ (valid_phone_value phone /\ (phone ∉ phone_values r) /\
      Record.remove_phone r phone = Raise (ValueError (NotInList phone)))
  \/ (~ valid_phone_value phone /\
      Record.remove_phone r phone = Raise (ValidationError MustHave10Numbers)).
Proof.
  unfold Record.remove_phone. fold (phone_values r).
  destruct (valid_phone_value_dec phone) as [Hv|Hv].
  - rewrite (Phone_init_Ok _ Hv), bind_Ok. simpl.
    destruct (decide (phone ∈ phone_values r)) as [Hin|Hin].
    + left. destruct (index_elem_of _ _ Hin) as (i & Hi & Hl).
      exists i. rewrite Hi, bind_Ok. done.
    + right; left. by rewrite (index_not_elem_of _ _ Hin).
  - right; right. by rewrite (Phone_init_Raise _ Hv).
Qed.

Lemma edit_phone_cases r old_phone new_phone :
  (exists i, valid_phone_value old_phone /\ valid_phone_value new_phone /\
     index (phone_values r) old_phone = Ok i /\
     phone_values r !! i = Some old_phone /\
     ((new_phone ∈ phone_values r /\ old_phone <> new_phone /\
       Record.edit_phone r old_phone new_phone =
         Ok (Record.set_phones r (delete i (Record.phones r)))) \/
      (((new_phone ∉ phone_values r) \/ old_phone = new_phone) /\
       Record.edit_phone r old_phone new_phone =
         Ok (Record.set_phones r (<[i := Phone.mk new_phone]> (Record.phones r))))))
  \/ (valid_phone_value old_phone /\ (old_phone ∉ phone_values r) /\
      Record.edit_phone r old_phone new_phone = Raise (ValueError (NotInList old_phone)))
  \/ ((~ valid_phone_value old_phone \/
       (old_phone ∈ phone_values r /\ ~ valid_phone_value new_phone)) /\
      Record.edit_phone r old_phone new_phone = Raise (ValidationError MustHave10Numbers)).
Proof.
  unfold Record.edit_phone. fold (phone_values r).
  destruct (remove_phone_cases r old_phone)
    as [(i & Hv & Hi & Hl & Hrm)|[(Hv & Hin & _)|(Hv & _)]].
  - rewrite (Phone_init_Ok _ Hv), bind_Ok. simpl. rewrite Hi, bind_Ok.
    destruct (valid_phone_value_dec new_phone) as [Hn|Hn].
    + left. exists i. do 4 (split; [done|]).
      rewrite (find_phone_valid _ _ Hn), bind_Ok.
      destruct (decide (new_phone ∈ phone_values r)) as [Hin|Hin].
      * pose proof Hin as Hs. apply head_filter_is_Some in Hs.
        rewrite (bool_decide_eq_true_2 _ Hs). simpl.
        destruct (decide (old_phone = new_phone)) as [Heq|Hne].
        -- right. split; [by right|].
           rewrite (bool_decide_eq_true_2 _ Heq). simpl.
           by rewrite (Phone_init_Ok _ Hn), bind_Ok.
        -- left. rewrite (bool_decide_eq_false_2 _ Hne). simpl. done.
      * right. split; [by left|].
        rewrite bool_decide_eq_false_2; [|by rewrite head_filter_is_Some].
        simpl. by rewrite (Phone_init_Ok _ Hn), bind_Ok.
    + right; right. split; [right; split; [|done]; by eapply list_elem_of_lookup_2|].
      unfold Record.find_phone. rewrite matching_phones_invalid; [done..|].
      intros Hnil. unfold phone_values in Hl. by rewrite Hnil in Hl.
  - right; left. do 2 (split; [done|]).
    rewrite (Phone_init_Ok _ Hv), bind_Ok. simpl.
    by rewrite (index_not_elem_of _ _ Hin).
  - right; right. rewrite (Phone_init_Raise _ Hv). split; [by left|done].
Qed.
End record.

(** ** The invariant of a record *)

Section lists.
Context {A : Type} `{EqDecision A}.
Implicit Types l : list A.

Lemma NoDup_delete l i : NoDup l -> NoDup (delete i l).
Proof. intros Hnd. apply (sublist_NoDup (delete i l) l); [done|apply sublist_delete]. Qed.

Lemma not_elem_of_delete l i x : NoDup l -> l !! i = Some x -> x ∉ delete i l.
Proof.
  intros Hnd Hi Hin. apply list_elem_of_lookup in Hin as [j Hj].
  rewrite list_lookup_delete in Hj. case_decide.
  - pose proof (NoDup_lookup _ _ _ _ Hnd Hi Hj). lia.
  - pose proof (NoDup_lookup _ _ _ _ Hnd Hi Hj). lia.
Qed.

Lemma elem_of_delete_ne l i x y :
  y ∈ l -> l !! i = Some x -> y <> x -> y ∈ delete i l.
Proof.
  intros Hy Hi Hne. apply list_elem_of_lookup in Hy as [j Hj].
  assert (j <> i) by (intros ->; congruence).
  apply list_elem_of_lookup. destruct (decide (j < i)%nat).
  - exists j. by rewrite list_lookup_delete_lt.
  - exists (pred j). rewrite list_lookup_delete_ge by lia.
    by replace (S (pred j)) with j by lia.
Qed.

Lemma NoDup_insert_fresh l i x : NoDup l -> x ∉ l -> NoDup (<[i:=x]> l).
Proof.
  intros Hnd Hx. destruct (decide (i < length l)%nat) as [Hi|Hi].
  - rewrite insert_take_drop by done.
    destruct (lookup_lt_is_Some_2 l i Hi) as [y Hy].
    rewrite <- (take_drop_middle l i y Hy) in Hnd, Hx.
    apply NoDup_app in Hnd as (H1 & H2 & H3). apply NoDup_cons in H3 as [H3 H4].
    rewrite elem_of_app, elem_of_cons in Hx.
    apply NoDup_app. split; [done|]. split.
    + intros z Hz. rewrite elem_of_cons. intros [->|Hz'].
      * tauto.
      * apply (H2 z Hz). by right.
    + apply NoDup_cons. split; [tauto|done].
  - by rewrite list_insert_ge by lia.
Qed.

Lemma filter_eq_NoDup l x :
  NoDup l -> x ∈ l -> filter (fun y => y = x) l = [x].
Proof.
  induction l as [|y l IH]; [by intros _ ?%elem_of_nil|].
  intros [Hy Hnd]%NoDup_cons Hin. rewrite filter_cons. case_decide as E.
  - subst y. f_equal. clear IH Hin.
    induction l as [|z l IH]; [done|].
    apply not_elem_of_cons in Hy as [? ?]. apply NoDup_cons in Hnd as [? ?].
    rewrite filter_cons. case_decide; [congruence|]. by apply IH.
  - apply elem_of_cons in Hin as [->|Hin]; [done|]. by apply IH.
Qed.
End lists.

Section record.
Context `{Unicode}.

Lemma add_phone_ok r phone r' :
  record_ok r -> Record.add_phone r phone = Ok r' ->
  record_ok r' /\ Record.name r' = Record.name r.
Proof.
  intros [Hv Hnd] Hadd.
  destruct (add_phone_cases r phone) as [(Hp & [(_ & E)|(Hin & E)])|(_ & E)];
    rewrite E in Hadd; simplify_eq; [done|].
  split; [|done]. split; simpl.
  - apply Forall_app. split; [done|]. by apply Forall_singleton.
  - unfold phone_values in *. simpl. rewrite fmap_app. simpl.
    apply NoDup_app. split; [done|]. split; [|apply NoDup_singleton].
    intros x Hx ->%list_elem_of_singleton. done.
Qed.

Lemma remove_phone_ok r phone r' :
  record_ok r -> Record.remove_phone r phone = Ok r' ->
  record_ok r' /\ Record.name r' = Record.name r.
Proof.
  intros [Hv Hnd] Hrm.
  destruct (remove_phone_cases r phone) as [(i & Hp & _ & _ & E)|[(_ & _ & E)|(_ & E)]];
    rewrite E in Hrm; simplify_eq.
  split; [|done]. split; simpl.
  - by apply Forall_delete.
  - unfold phone_values in *. simpl. rewrite list_fmap_delete. by apply NoDup_delete.
Qed.

Lemma edit_phone_ok r old_phone new_phone r' :
  record_ok r -> Record.edit_phone r old_phone new_phone = Ok r' ->
  record_ok r' /\ Record.name r' = Record.name r.
Proof.
  intros [Hv Hnd] Hed.
  destruct (edit_phone_cases r old_phone new_phone)
    as [(i & Ho & Hn & _ & Hi & [(_ & _ & E)|(Hc & E)])|[(_ & _ & E)|(_ & E)]];
    rewrite E in Hed; simplify_eq; (split; [|done]); split; simpl.
  - by apply Forall_delete.
  - unfold phone_values in *. simpl. rewrite list_fmap_delete. by apply NoDup_delete.
  - by apply Forall_insert.
  - unfold phone_values in *. simpl. rewrite list_fmap_insert. simpl.
    destruct Hc as [Hc| ->]; [by apply NoDup_insert_fresh|].
    by rewrite list_insert_id.
Qed.

Lemma add_birthday_ok now r birthday r' :
  record_ok r -> Record.add_birthday now r birthday = Ok r' ->
  record_ok r' /\ Record.name r' = Record.name r.
Proof.
  unfold Record.add_birthday. intros Hok Hadd.
  destruct (Birthday.init now birthday); simpl in Hadd; [|done]. by simplify_eq.
Qed.

Lemma Record_init_ok name phone r :
  Record.init name phone = Ok r ->
  record_ok r /\ Record.name r = Name.mk name.
Proof.
  unfold Record.init. intros Hr.
  destruct phone as [p|]; [case_bool_decide|]; simpl in Hr.
  - simplify_eq. split; [|done]. split; [constructor|]. constructor.
  - destruct (Phone.init p) as [ph|] eqn:Hp; [|done]. simpl in Hr. simplify_eq.
    apply Phone_init_inv in Hp as [-> Hp].
    split; [|done]. split; simpl; [by apply Forall_singleton|]. apply NoDup_singleton.
  - simplify_eq. split; [|done]. split; [constructor|]. constructor.
Qed.
End record.

(** ** Dictionaries and the invariant of a session *)

Section dict.
Context {V : Type}.
Implicit Types (d : dict V) (k : str) (v : V).

Lemma dict_get_cons k k0 v0 d :
  dict_get k ((k0, v0) :: d) = if bool_decide (k0 = k) then Some v0 else dict_get k d.
Proof. reflexivity. Qed.

Lemma dict_get_None k d : dict_get k d = None <-> k ∉ dict_keys d.
Proof.
  unfold dict_keys. induction d as [|[k' v'] d IH]; simpl.
  - split; [intros _ ?%elem_of_nil; done|done].
  - rewrite not_elem_of_cons. case_bool_decide.
    + split; [done|]. intros [? _]. congruence.
    + rewrite IH. split; [intros ?; split; [congruence|done]|by intros [_ ?]].
Qed.

Lemma dict_get_Some k v d : dict_get k d = Some v -> (k, v) ∈ d.
Proof.
  induction d as [|[k' v'] d IH]; simpl; [done|].
  case_bool_decide.
  - intros [= ->]. subst. apply elem_of_cons. by left.
  - intros ?. apply elem_of_cons. right. auto.
Qed.

Lemma dict_get_elem_of k v d : dict_wf d -> (k, v) ∈ d -> dict_get k d = Some v.
Proof.
  unfold dict_wf, dict_keys. induction d as [|[k' v'] d IH]; simpl.
  - by intros _ ?%elem_of_nil.
  - intros [Hk Hnd]%NoDup_cons [[= -> ->]|Hin]%elem_of_cons.
    + by rewrite bool_decide_eq_true_2.
    + case_bool_decide as E; [|by apply IH]. subst k'.
      exfalso. apply Hk. apply list_elem_of_fmap. by exists (k, v).
Qed.

Lemma dict_setitem_elem_of k v d k' v' :
  (k', v') ∈ dict_setitem k v d -> (k', v') = (k, v) \/ (k', v') ∈ d.
Proof.
  induction d as [|[k0 v0] d IH]; simpl.
  - intros ?%list_elem_of_singleton. by left.
  - case_bool_decide.
    + intros [?|?]%elem_of_cons; [by left|]. right. apply elem_of_cons. by right.
    + intros [?|?]%elem_of_cons.
      * right. apply elem_of_cons. by left.
      * destruct IH as [?|?]; [done|by left|]. right. apply elem_of_cons. by right.
Qed.

Lemma dict_setitem_keys k v d :
  dict_keys (dict_setitem k v d) =
  if bool_decide (k ∈ dict_keys d) then dict_keys d else dict_keys d ++ [k].
Proof.
  unfold dict_keys. induction d as [|[k0 v0] d IH]; [done|].
  cbn [dict_setitem]. destruct (decide (k0 = k)) as [->|E].
  - rewrite (bool_decide_eq_true_2 (k = k)) by done. rewrite !fmap_cons.
    rewrite bool_decide_eq_true_2; [done|]. apply elem_of_cons. by left.
  - rewrite (bool_decide_eq_false_2 (k0 = k)) by done. rewrite !fmap_cons, IH.
    cbn [fst]. destruct (decide (k ∈ d.*1)) as [Hin|Hin].
    + rewrite !bool_decide_eq_true_2; [done|by apply elem_of_cons; right|done].
    + rewrite !bool_decide_eq_false_2; [done| |done].
      apply not_elem_of_cons. split; [congruence|done].
Qed.

Lemma dict_setitem_wf k v d : dict_wf d -> dict_wf (dict_setitem k v d).
Proof.
  unfold dict_wf. rewrite dict_setitem_keys. case_bool_decide; [done|].
  intros Hnd. apply NoDup_app. split; [done|]. split; [|apply NoDup_singleton].
  intros x Hx ->%list_elem_of_singleton. done.
Qed.

Lemma dict_pop_absent k d :
  k ∉ dict_keys d -> dict_pop k d = Raise (KeyError k).
Proof.
  unfold dict_keys. induction d as [|[k' v'] d IH]; simpl; [done|].
  intros [Hne Hin]%not_elem_of_cons. case_bool_decide; [congruence|].
  by rewrite IH.
Qed.

Lemma dict_pop_present k v d :
  dict_wf d -> dict_get k d = Some v ->
  dict_pop k d = Ok (v, filter (fun kv => kv.1 <> k) d).
Proof.
  unfold dict_wf, dict_keys. induction d as [|[k' v'] d IH]; [done|].
  cbn [dict_get dict_pop]. rewrite fmap_cons, filter_cons. cbn [fst].
  intros [Hk Hnd]%NoDup_cons. destruct (decide (k' = k)) as [->|E].
  - rewrite !(bool_decide_eq_true_2 (k = k)) by done. intros [= ->].
    case_decide; [done|]. do 2 f_equal.
    clear IH Hnd. induction d as [|[k0 v0] d IH]; [done|].
    rewrite fmap_cons in Hk. cbn [fst] in Hk. apply not_elem_of_cons in Hk as [? ?].
    rewrite filter_cons. cbn [fst]. case_decide as E; [|destruct E; congruence]. f_equal. by apply IH.
  - rewrite !(bool_decide_eq_false_2 (k' = k)) by done.
    intros Hg. rewrite (IH Hnd Hg), bind_Ok. by case_decide.
Qed.

Lemma dict_get_filter_ne k k' d :
  dict_get k' (filter (fun kv : str * V => kv.1 <> k) d) =
  if bool_decide (k' = k) then None else dict_get k' d.
Proof.
  induction d as [|[k0 v0] d IH]; [by case_bool_decide|].
  rewrite filter_cons, (dict_get_cons k' k0 v0 d). cbn [fst].
  destruct (decide (k0 = k)) as [->|E0].
  - rewrite decide_False by (by intros ?). rewrite IH.
    repeat case_bool_decide; congruence.
  - rewrite decide_True by done. rewrite dict_get_cons, IH.
    repeat case_bool_decide; congruence.
Qed.

Lemma dict_filter_wf (P : str * V -> Prop) `{forall x, Decision (P x)} d :
  dict_wf d -> dict_wf (filter P d).
Proof.
  unfold dict_wf, dict_keys. intros Hnd.
  apply (sublist_NoDup _ (d.*1)); [done|].
  apply fmap_sublist, sublist_filter.
Qed.
End dict.

Section invariant.
Context `{Unicode}.

Lemma store_ok_update σ l r r' :
  store_ok σ -> objects σ !! l = Some r ->
  record_ok r' -> Record.name r' = Record.name r ->
  store_ok (mk_state (<[l := r']> (objects σ)) (book σ)).
Proof.
  intros (Hrec & Hbook & Hwf) Hl Hok Hname. split; [|split]; simpl; [| |done].
  - intros l0 r0. rewrite lookup_insert. case_decide; [|by apply Hrec].
    by intros [= <-].
  - intros k l0 Hin. destruct (Hbook k l0 Hin) as (r0 & Hr0 & Hk).
    rewrite lookup_insert. case_decide; [|by eauto].
    subst l0. exists r'. split; [done|]. rewrite Hname. congruence.
Qed.

Lemma step_store_ok σ σ' : store_ok σ -> step σ σ' -> store_ok σ'.
Proof.
  intros Hok Hstep. destruct Hstep.
  - destruct Hok as (Hrec & Hbook & Hwf).
    split; [|split]; simpl; [| |done].
    + intros l0 r0. rewrite lookup_insert. case_decide; [|by apply Hrec].
      intros [= <-]. by eapply Record_init_ok.
    + intros k l0 Hin. destruct (Hbook k l0 Hin) as (r0 & Hr0 & Hk).
      exists r0. rewrite lookup_insert_ne; [done|]. congruence.
  - edestruct add_phone_ok as [? ?]; [by eapply Hok|done|]. by eapply store_ok_update.
  - edestruct remove_phone_ok as [? ?]; [by eapply Hok|done|]. by eapply store_ok_update.
  - edestruct edit_phone_ok as [? ?]; [by eapply Hok|done|]. by eapply store_ok_update.
  - edestruct add_birthday_ok as [? ?]; [by eapply Hok|done|]. by eapply store_ok_update.
  - destruct Hok as (Hrec & Hbook & Hwf).
    unfold AddressBook.add_record in *. destruct (objects σ !! l) as [r|] eqn:Hl; [|done].
    simpl in *. simplify_eq. split; [|split]; simpl; [done| |by apply dict_setitem_wf].
    intros k l0 [[= -> ->]|Hin]%dict_setitem_elem_of; eauto.
  - destruct Hok as (Hrec & Hbook & Hwf).
    unfold AddressBook.delete in *.
    destruct (dict_get name (book σ)) as [l|] eqn:Hg.
    + rewrite (dict_pop_present _ _ _ Hwf Hg) in *. simpl in *. simplify_eq.
      split; [|split]; simpl; [done| |by apply dict_filter_wf].
      intros k l0 [_ Hin]%list_elem_of_filter. eauto.
    + apply dict_get_None in Hg. rewrite (dict_pop_absent _ _ Hg) in *. done.
Qed.

Lemma reachable_store_ok σ : reachable σ -> store_ok σ.
Proof.
  induction 1 as [|σ σ' _ IH Hstep]; [|by eapply step_store_ok].
  split; [|split]; simpl.
  - intros l r. by rewrite lookup_empty.
  - by intros k l ?%elem_of_nil.
  - constructor.
Qed.
End invariant.

(** ** The loop of [get_upcoming_birthdays] *)

Lemma check_date_fields_Ok y m d x :
  check_date_fields y m d = Ok x -> x = mkdate y m d /\ valid x.
Proof.
  unfold check_date_fields, MINYEAR, MAXYEAR, valid. intros Hc.
  destruct (Z.leb_spec 1 y), (Z.leb_spec y 9999); simpl in Hc; try discriminate.
  destruct (Z.leb_spec 1 m), (Z.leb_spec m 12); simpl in Hc; try discriminate.
  destruct (Z.leb_spec 1 d), (Z.leb_spec d (days_in_month y m)); simpl in Hc;
    try discriminate.
  injection Hc as <-. split; [done|]. simpl. lia.
Qed.

Lemma replace_year_Ok d y d' :
  replace_year d y = Ok d' -> d' = mkdate y (month d) (day d) /\ valid d'.
Proof. apply check_date_fields_Ok. Qed.

Lemma upcoming_loop_spec now recs acc res :
  AddressBook.upcoming_loop now recs acc = Ok res ->
  exists res', res = acc ++ res' /\
    Forall2 (Upcoming.entry_of now)
      (filter (fun rec => Upcoming.qualifies now rec = true) recs) res'.
Proof.
  revert acc. induction recs as [|rec recs IH]; intros acc Hloop.
  { simpl in Hloop. injection Hloop as <-. exists []. by rewrite app_nil_r. }
  cbn [AddressBook.upcoming_loop] in Hloop. rewrite filter_cons.
  assert (Hq : Upcoming.qualifies now rec =
               match Record.birthday rec with
               | Some b => Upcoming.in_window now
                             (Upcoming.occurrence now (Birthday.value b))
               | None => false
               end) by reflexivity.
  destruct (Record.birthday rec) as [b|] eqn:Hb.
  2:{ rewrite decide_False by (by rewrite Hq). by apply IH. }
  destruct (replace_year (Birthday.value b) (year now)) as [b1|] eqn:H1; [|done].
  rewrite bind_Ok in Hloop. apply replace_year_Ok in H1 as [E1 V1].
  change (mkdate _ _ _) with (Upcoming.this_year now (Birthday.value b)) in E1.
  assert (exists occ,
    (if ltb b1 now then replace_year b1 (year now + 1) else Ok b1) = Ok occ /\
    occ = Upcoming.occurrence now (Birthday.value b) /\ valid occ)
    as (occ & Hocc & Eocc & Vocc).
  { unfold Upcoming.occurrence. rewrite <- E1.
    destruct (ltb b1 now).
    - destruct (replace_year b1 (year now + 1)) as [b2|] eqn:H2; [|done].
      exists b2. split; [done|]. apply replace_year_Ok in H2 as [E2 V2].
      split; [|done]. rewrite E2, E1. reflexivity.
    - by exists b1. }
  rewrite Hocc, bind_Ok in Hloop. rewrite <- Eocc in Hq.
  fold (Upcoming.days_until now occ) in Hloop. fold (Upcoming.in_window now occ) in Hloop.
  destruct (Upcoming.in_window now occ) eqn:Hw.
  2:{ rewrite decide_False by (by rewrite Hq). by apply IH. }
  rewrite decide_True by done. cbv zeta in Hloop.
  assert (exists rep,
    (if (weekday occ =? 5) || (weekday occ =? 6)
     then add_days occ (7 - weekday occ) else Ok occ) = Ok rep /\
    Upcoming.reported occ rep) as (rep & Hrep & Rrep).
  { destruct (Z.eqb_spec (weekday occ) 5) as [E5|E5]; simpl.
    - destruct (add_days occ (7 - weekday occ)) as [rep|] eqn:Ha; [|done].
      exists rep. split; [done|]. apply weekday_add_days in Ha as (? & ? & Hwd).
      rewrite E5 in *. by apply Upcoming.reported_saturday.
    - destruct (Z.eqb_spec (weekday occ) 6) as [E6|E6]; simpl.
      + destruct (add_days occ (7 - weekday occ)) as [rep|] eqn:Ha; [|done].
        exists rep. split; [done|]. apply weekday_add_days in Ha as (? & ? & Hwd).
        rewrite E6 in *. by apply Upcoming.reported_sunday.
      + exists occ. split; [done|]. by apply Upcoming.reported_weekday. }
  rewrite Hrep, bind_Ok in Hloop.
  apply IH in Hloop as (res' & -> & HF).
  eexists (_ :: res'). split; [by rewrite <- app_assoc|].
  constructor; [|done]. split; [done|]. exists b, rep. rewrite <- Eocc. done.
Qed.

(** ** Birthdays *)

Section birthday.
Context `{Unicode}.

Lemma int_ValueError s e : int s = Raise e -> exists m, e = ValueError m.
Proof.
  unfold int. destruct (lstrip s); [intros [= <-]; eauto|].
  destruct (int_digits _ _); [done|]. intros [= <-]; eauto.
Qed.

Lemma check_date_fields_ValueError y m d e :
  check_date_fields y m d = Raise e -> exists msg, e = ValueError msg.
Proof.
  unfold check_date_fields.
  repeat match goal with |- context [if ?b then _ else _] => destruct b end;
    intros [= <-]; eauto.
Qed.

Lemma strptime_ValueError v e :
  strptime v = Raise e -> exists m, e = ValueError m.
Proof.
  unfold strptime. destruct (re_match _ _) as [[rest found]|]; [|intros [= <-]; eauto].
  destruct (negb _); [intros [= <-]; eauto|].
  destruct (int (groupdict found g_d)) as [dd|] eqn:Hd; [|intros [= <-]; by eapply int_ValueError].
  rewrite bind_Ok.
  destruct (int (groupdict found g_m)) as [mm|] eqn:Hm; [|intros [= <-]; by eapply int_ValueError].
  rewrite bind_Ok.
  destruct (int (groupdict found g_Y)) as [yy|] eqn:Hy; [|intros [= <-]; by eapply int_ValueError].
  rewrite bind_Ok. apply check_date_fields_ValueError.
Qed.

Lemma Birthday_init_unparsable now v e :
  strptime v = Raise e ->
  Birthday.init now v = Raise (ValueError InvalidDateFormat).
Proof.
  intros Hp. unfold Birthday.init. rewrite Hp.
  apply strptime_ValueError in Hp as [m ->]. reflexivity.
Qed.

Lemma Birthday_init_future now v d :
  strptime v = Ok d -> ltb now d = true ->
  Birthday.init now v = Raise (ValidationError IncorrectDate).
Proof.
  intros Hp Hlt. unfold Birthday.init, Birthday.validation, leb.
  rewrite Hp, bind_Ok, Hlt. reflexivity.
Qed.

Lemma Birthday_init_past now v d :
  strptime v = Ok d -> ltb now d = false ->
  Birthday.init now v = Ok (Birthday.mk d).
Proof.
  intros Hp Hlt. unfold Birthday.init, Birthday.validation, leb.
  rewrite Hp, bind_Ok, Hlt. reflexivity.
Qed.

Lemma DDMMYYYY_canonical s d : DDMMYYYY s d -> s = canonical d.
Proof.
  intros [d1 d2 m1 m2 y1 y2 y3 y4 Hd].
  repeat match goal with
         | H : Forall _ (_ :: _) |- _ => apply Forall_cons in H as [? H]
         end.
  unfold canonical, zfill2, zfill4, digit, chr_digit. simpl.
  repeat f_equal; Z.div_mod_to_equations; lia.
Qed.

Lemma DDMMYYYY_strftime s d : DDMMYYYY s d -> 1000 <= year d -> s = strftime d.
Proof. intros Hs Hy. rewrite strftime_canonical by done. by apply DDMMYYYY_canonical. Qed.

Lemma strftime_length_short d : year d < 1000 -> (length (strftime d) < 10)%nat.
Proof.
  intros Hy. unfold strftime, year_digits. rewrite !length_app.
  repeat match goal with |- context [?a <? ?b] => destruct (Z.ltb_spec a b); try lia end;
    simpl; lia.
Qed.

End birthday.

(** ** The operations of the specification *)

Lemma ltb_irrefl d : ltb d d = false.
Proof.
  unfold ltb. rewrite !Z.ltb_irrefl, !Z.eqb_refl. reflexivity.
Qed.

Section claims.
Context `{Unicode}.

(** C6.  [Phone(value)] succeeds exactly when [value] consists of ten
    characters that are all digits; the phone built holds [value], and for
    every other string the constructor raises
    [ValidationError('The phone must have 10 numbers.')]. *)
Theorem Phone_init_iff (value : str) :
  (succeeds (Phone.init value) <-> valid_phone_value value) /\
  (forall p, Phone.init value = Ok p -> Phone.value p = value) /\
  (~ valid_phone_value value ->
   Phone.init value = Raise (ValidationError MustHave10Numbers)).
Proof.
  split; [split|split].
  - intros [p Hp]. by apply Phone_init_inv in Hp as [_ ?].
  - intros Hv. exists (Phone.mk value). by apply Phone_init_Ok.
  - intros p Hp. by apply Phone_init_inv in Hp as [-> _].
  - apply Phone_init_Raise.
Qed.

(** C8.  [add_phone] is idempotent under duplicate values: with a valid
    phone string [p], a record that already holds a phone of value [p] is
    left as it is, and adding [p] twice to a fresh record gives a phones
    list with the one entry [p]. *)
Theorem add_phone_idempotent (r : Record.t) (p : str) :
  valid_phone_value p ->
  (p ∈ phone_values r -> Record.add_phone r p = Ok r) /\
  (forall name, exists r0 r1,
      Record.init name None = Ok r0 /\
      Record.add_phone r0 p = Ok r1 /\
      Record.add_phone r1 p = Ok r1 /\
      phone_values r1 = [p]).
Proof.
  intros Hv. split.
  - intros Hin.
    destruct (add_phone_cases r p) as [(_ & [(_ & E)|(Hn & _)])|(Hn & _)]; done.
  - intros name. eexists _, _. split; [reflexivity|].
    assert (Hadd : forall r', phone_values r' = [] ->
              Record.add_phone r' p =
                Ok (Record.set_phones r' (Record.phones r' ++ [Phone.mk p]))).
    { intros r' Hr'.
      destruct (add_phone_cases r' p) as [(_ & [(Hin & _)|(_ & E)])|(Hn & _)]; [|done..].
      rewrite Hr' in Hin. by apply elem_of_nil in Hin. }
    split; [by apply Hadd|]. split; [|done].
    match goal with |- Record.add_phone ?x _ = _ => set (r1 := x) end.
    destruct (add_phone_cases r1 p) as [(_ & [(_ & E)|(Hn & _)])|(Hn & _)];
      [done| |done].
    exfalso. apply Hn. subst r1. unfold phone_values. simpl.
    apply list_elem_of_singleton. done.
Qed.

(** C7.  [edit_phone(old, new)] on a record whose phones hold no value
    twice (the data model's invariant, kept by every record the operations
    build: [reachable_coherent]):
    - when [old] and [new] are valid, different and both among the phones,
      the call returns, the phones no longer hold [old] and hold exactly one
      entry equal to [new];
    - when [new] is not among the phones, the entry matching [old] is
      replaced by [new], in place;
    - when [old] is not among the phones the call fails, with
      ValidationError or with the ValueError of [list.index]. *)
Theorem edit_phone_spec (r : Record.t) (old_phone new_phone : str) :
  (NoDup (phone_values r) ->
   valid_phone_value old_phone -> valid_phone_value new_phone ->
   old_phone <> new_phone ->
   old_phone ∈ phone_values r -> new_phone ∈ phone_values r ->
   exists r', Record.edit_phone r old_phone new_phone = Ok r' /\
     (old_phone ∉ phone_values r') /\
     filter (fun v => v = new_phone) (phone_values r') = [new_phone]) /\
  (valid_phone_value old_phone -> valid_phone_value new_phone ->
   old_phone ∈ phone_values r -> new_phone ∉ phone_values r ->
   exists i r', index (phone_values r) old_phone = Ok i /\
     phone_values r !! i = Some old_phone /\
     Record.edit_phone r old_phone new_phone = Ok r' /\
     Record.phones r' = <[i := Phone.mk new_phone]> (Record.phones r) /\
     phone_values r' = <[i := new_phone]> (phone_values r)) /\
  (old_phone ∉ phone_values r ->
   exists e, Record.edit_phone r old_phone new_phone = Raise e /\
     typed_error e = true).
Proof.
  destruct (edit_phone_cases r old_phone new_phone)
    as [(i & Ho & Hn & Hidx & Hi & [(Hin & Hne & E)|(Hc & E)])
       |[(Ho & Hnin & E)|(Hc & E)]].
  - split; [|split].
    + intros Hnd _ _ _ _ _. eexists. split; [done|].
      unfold phone_values in *. simpl. rewrite list_fmap_delete. split.
      * by apply not_elem_of_delete.
      * apply filter_eq_NoDup; [by apply NoDup_delete|].
        eapply elem_of_delete_ne; [done..|]. congruence.
    + tauto.
    + intros Hnin. exfalso. apply Hnin. by eapply list_elem_of_lookup_2.
  - split; [|split].
    + intros _ _ _ Hne _ Hin. destruct Hc; done.
    + intros _ _ _ _. exists i. eexists. do 3 (split; [done|]).
      split; [done|]. unfold phone_values. simpl. by rewrite list_fmap_insert.
    + intros Hnin. exfalso. apply Hnin. by eapply list_elem_of_lookup_2.
  - split; [|split]; [tauto..|]. intros _. eexists. by split.
  - split; [|split].
    + destruct Hc as [?|[_ ?]]; tauto.
    + destruct Hc as [?|[_ ?]]; tauto.
    + intros _. eexists. by split.
Qed.

(** C9.  For a name absent from the book, [find] returns [None] and
    [delete] raises [KeyError] (the book, a value here, is what it was); for
    a name present, [delete] returns the book without that entry, the other
    entries and their order kept. *)
Theorem find_delete_spec (book : AddressBook.t) (name : str) :
  (name ∉ dict_keys book ->
   AddressBook.find book name = None /\
   AddressBook.delete book name = Raise (KeyError name)) /\
  (dict_wf book -> name ∈ dict_keys book ->
   exists l book',
     AddressBook.find book name = Some l /\
     AddressBook.delete book name = Ok book' /\
     book' = filter (fun kv => kv.1 <> name) book /\
     AddressBook.find book' name = None /\
     forall k, k <> name -> AddressBook.find book' k = AddressBook.find book k).
Proof.
  unfold AddressBook.find, AddressBook.delete. split.
  - intros Hn. split; [by apply dict_get_None|]. by rewrite dict_pop_absent.
  - intros Hwf Hin. destruct (dict_get name book) as [l|] eqn:Hg.
    2:{ by apply dict_get_None in Hg. }
    exists l. eexists. split; [done|].
    rewrite (dict_pop_present _ _ _ Hwf Hg), bind_Ok. split; [done|]. split; [done|].
    split.
    + rewrite dict_get_filter_ne. by rewrite bool_decide_eq_true_2.
    + intros k Hk. rewrite dict_get_filter_ne. by rewrite bool_decide_eq_false_2.
Qed.

(** C10.  Key-value coherence: in every state reachable from the empty
    book by [Record], [add_phone], [remove_phone], [edit_phone],
    [add_birthday], [add_record] and [delete], every key stored in the book
    is the name of the record it refers to, and the phones of that record
    are valid ten-digit values, no two of them equal. *)
Theorem reachable_coherent (σ : state) :
  reachable σ ->
  forall k l, (k, l) ∈ book σ ->
    exists r, objects σ !! l = Some r /\
      Name.value (Record.name r) = k /\
      Forall valid_phone_value (phone_values r) /\
      NoDup (phone_values r).
Proof.
  intros Hr k l Hin. apply reachable_store_ok in Hr as (Hrec & Hbook & _).
  destruct (Hbook k l Hin) as (r & Hl & Hk). exists r. do 2 (split; [done|]).
  destruct (Hrec l r Hl) as [Hv Hnd]. split; [|done].
  unfold phone_values. by apply Forall_fmap.
Qed.


(** C4, as amended.  [Birthday(value)] parses [value] with [strptime]
    against [%d.%m.%Y]; when the string does not parse it raises
    [ValueError("Invalid date format. Use DD.MM.YYYY")]; when the parsed date
    is strictly after today it raises [ValidationError('Incorrect date.')];
    a parsed date that is today or earlier is accepted. *)
Theorem Birthday_init_spec (now : date) (v : str) :
  (forall e, strptime v = Raise e ->
     Birthday.init now v = Raise (ValueError InvalidDateFormat)) /\
  (forall d, strptime v = Ok d -> ltb now d = true ->
     Birthday.init now v = Raise (ValidationError IncorrectDate)) /\
  (forall d, strptime v = Ok d -> ltb now d = false ->
     Birthday.init now v = Ok (Birthday.mk d)) /\
  (strptime v = Ok now -> Birthday.init now v = Ok (Birthday.mk now)).
Proof.
  split; [|split; [|split]].
  - apply Birthday_init_unparsable.
  - apply Birthday_init_future.
  - apply Birthday_init_past.
  - intros Hp. apply Birthday_init_past; [done|apply ltb_irrefl].
Qed.
End claims.

(** ** The birthday on 29 February *)

Lemma ann_state_reachable : @reachable latin1 ann_state.
Proof.
  eapply reachable_step; [eapply reachable_step; [eapply reachable_step;
    [apply reachable_initial|]|]|].
  - apply (step_Record initial 0%nat (lit "Ann") None); reflexivity.
  - eapply (step_add_birthday _ (mkdate 2023 2 25) 0%nat ann_new (lit "29.02.2000") ann);
      vm_compute; reflexivity.
  - apply (step_add_record (mk_state (objects ann_state) []) 0%nat).
    vm_compute. reflexivity.
Qed.

Lemma ann_bob_state_reachable : @reachable latin1 ann_bob_state.
Proof.
  eapply reachable_step; [eapply reachable_step; [eapply reachable_step;
    [apply ann_state_reachable|]|]|].
  - apply (step_Record ann_state 1%nat (lit "Bob") None); [vm_compute|]; reflexivity.
  - eapply (step_add_birthday _ (mkdate 2023 2 25) 1%nat bob_new (lit "01.03.1990") bob);
      vm_compute; reflexivity.
  - apply (step_add_record (mk_state (objects ann_bob_state) (book ann_state)) 1%nat).
    vm_compute. reflexivity.
Qed.

(** C3, where the code fails.  On 25 February 2023, in the state reached
    by [Record("Ann")], [add_birthday("29.02.2000")] and [add_record],
    [get_upcoming_birthdays] raises the [ValueError] of
    [replace(year=2023)] ("day is out of range for month"), which is none of
    the failures the specification names. *)
Theorem upcoming_birthdays_leap_day_raises :
  @reachable latin1 ann_state /\
  AddressBook.get_upcoming_birthdays (mkdate 2023 2 25)
    (objects ann_state) (book ann_state) = Raise (ValueError DayOutOfRange) /\
  typed_error (ValueError DayOutOfRange) = false.
Proof.
  split; [apply ann_state_reachable|]. split; vm_compute; reflexivity.
Qed.

(** C1, where the code fails.  On 25 February 2023, with Ann (born
    29 February 2000) and Bob (born 1 March 1990) in the book, Bob's
    occurrence is 1 March 2023, four days ahead, so Bob qualifies; yet
    [get_upcoming_birthdays] raises at Ann's record and returns no result. *)
Theorem upcoming_birthdays_leap_day_hides_others :
  @reachable latin1 ann_bob_state /\
  bob ∈ AddressBook.values (objects ann_bob_state) (book ann_bob_state) /\
  Upcoming.occurrence (mkdate 2023 2 25) (mkdate 1990 3 1) = mkdate 2023 3 1 /\
  Upcoming.days_until (mkdate 2023 2 25) (mkdate 2023 3 1) = 4 /\
  Upcoming.qualifies (mkdate 2023 2 25) bob = true /\
  AddressBook.get_upcoming_birthdays (mkdate 2023 2 25)
    (objects ann_bob_state) (book ann_bob_state) = Raise (ValueError DayOutOfRange).
Proof.
  split; [apply ann_bob_state_reachable|]. split.
  - apply list_elem_of_In. vm_compute. right. left. reflexivity.
  - repeat split; vm_compute; reflexivity.
Qed.

(** C4, as stated, fails: on 1 January 2024 the string "01.01.2024" parses
    to today's date and [Birthday] accepts it. *)
Lemma Birthday_today_is_accepted :
  ~ (forall (now : date) (v : str) (d : date),
       valid now -> @strptime latin1 v = Ok d -> leb now d = true ->
       exists m, @Birthday.init latin1 now v = Raise (ValidationError m)).
Proof.
  intros Hclaim.
  destruct (Hclaim (mkdate 2024 1 1) (lit "01.01.2024") (mkdate 2024 1 1))
    as [m Hm]; [vm_compute; intuition discriminate|reflexivity|reflexivity|].
  vm_compute in Hm. discriminate.
Qed.


(** ** Instances *)

Lemma valid_phone_1234567890 : @valid_phone_value latin1 (lit "1234567890").
Proof. split; [reflexivity|]. repeat constructor. Qed.

Lemma valid_phone_0987654321 : @valid_phone_value latin1 (lit "0987654321").
Proof. split; [reflexivity|]. repeat constructor. Qed.

Lemma two_phones_NoDup : NoDup (phone_values two_phones).
Proof.
  apply NoDup_cons. split.
  - intros Hin%list_elem_of_singleton. vm_compute in Hin. discriminate.
  - apply NoDup_singleton.
Qed.


(** Today is accepted, tomorrow is rejected, a string in another format
    is a format error. *)
Lemma Birthday_init_spec_witness :
  @Birthday.init latin1 (mkdate 2024 1 1) (lit "01.01.2024")
    = Ok (Birthday.mk (mkdate 2024 1 1)) /\
  @Birthday.init latin1 (mkdate 2024 1 1) (lit "02.01.2024")
    = Raise (ValidationError IncorrectDate) /\
  @Birthday.init latin1 (mkdate 2024 1 1) (lit "2024-01-01")
    = Raise (ValueError InvalidDateFormat).
Proof.
  split; [|split].
  - apply (@Birthday_init_spec latin1 (mkdate 2024 1 1) (lit "01.01.2024")).
    vm_compute. reflexivity.
  - apply (proj1 (proj2 (@Birthday_init_spec latin1 (mkdate 2024 1 1) (lit "02.01.2024")))
             (mkdate 2024 1 2)); vm_compute; reflexivity.
  - apply (proj1 (@Birthday_init_spec latin1 (mkdate 2024 1 1) (lit "2024-01-01"))
             (ValueError DoesNotMatchFormat)). vm_compute. reflexivity.
Defined.


(** "1234567890" is a phone. *)
Lemma Phone_init_iff_witness : succeeds (@Phone.init latin1 (lit "1234567890")).
Proof.
  apply (proj1 (@Phone_init_iff latin1 (lit "1234567890"))).
  apply valid_phone_1234567890.
Defined.

(** Editing the first of two phones into the second leaves the second
    alone. *)
Lemma edit_phone_spec_witness :
  exists r', @Record.edit_phone latin1 two_phones (lit "1234567890") (lit "0987654321")
               = Ok r' /\
    (lit "1234567890" ∉ phone_values r') /\
    filter (fun v => v = lit "0987654321") (phone_values r') = [lit "0987654321"].
Proof.
  apply (proj1 (@edit_phone_spec latin1 two_phones (lit "1234567890") (lit "0987654321"))).
  - apply two_phones_NoDup.
  - apply valid_phone_1234567890.
  - apply valid_phone_0987654321.
  - vm_compute. discriminate.
  - apply list_elem_of_In. vm_compute. left. reflexivity.
  - apply list_elem_of_In. vm_compute. right. left. reflexivity.
Defined.

(** Adding a phone the record holds changes nothing. *)
Lemma add_phone_idempotent_witness :
  @Record.add_phone latin1 two_phones (lit "1234567890") = Ok two_phones.
Proof.
  apply (@add_phone_idempotent latin1 two_phones (lit "1234567890")).
  - apply valid_phone_1234567890.
  - apply list_elem_of_In. vm_compute. left. reflexivity.
Defined.

(** Bob is not in a book that holds Ann only. *)
Lemma find_delete_spec_witness :
  AddressBook.find sunday_book (lit "Bob") = None /\
  AddressBook.delete sunday_book (lit "Bob") = Raise (KeyError (lit "Bob")).
Proof.
  apply (find_delete_spec sunday_book (lit "Bob")).
  intros Hin%list_elem_of_singleton. vm_compute in Hin. discriminate.
Defined.

(** Bob's entry in the book of Ann and Bob. *)
Lemma reachable_coherent_witness :
  exists r, objects ann_bob_state !! 1%nat = Some r /\
    Name.value (Record.name r) = lit "Bob" /\
    Forall (@valid_phone_value latin1) (phone_values r) /\
    NoDup (phone_values r).
Proof.
  apply (@reachable_coherent latin1 ann_bob_state ann_bob_state_reachable (lit "Bob") 1%nat).
  apply list_elem_of_In. right. left. reflexivity.
Defined.

(** ** When the upcoming-birthday query returns, and what the operations raise *)

Lemma this_year_valid now b :
  valid now -> valid b -> ~ leap_day b -> valid (Upcoming.this_year now b).
Proof.
  unfold valid, leap_day, Upcoming.this_year, days_in_month. simpl.
  intros (Hy & _) (_ & Hm & Hd) Hl. split; [done|]. split; [done|].
  destruct (Z.eqb_spec (month b) 2) as [E|E]; simpl in *.
  - rewrite E in *. simpl in *. destruct (is_leap (year b)), (is_leap (year now)); lia.
  - done.
Qed.

Lemma next_year_valid now b :
  valid now -> year now < 9999 -> valid b -> ~ leap_day b ->
  valid (Upcoming.next_year now b).
Proof.
  unfold valid, leap_day, Upcoming.next_year, days_in_month. simpl.
  intros (Hy & _) Hmax (_ & Hm & Hd) Hl. split; [lia|]. split; [done|].
  destruct (Z.eqb_spec (month b) 2) as [E|E]; simpl in *.
  - rewrite E in *. simpl in *. destruct (is_leap (year b)), (is_leap (year now + 1)); lia.
  - done.
Qed.

Lemma add_days_weekend occ :
  valid occ -> weekday occ = 5 \/ weekday occ = 6 ->
  exists rep, add_days occ (7 - weekday occ) = Ok rep.
Proof.
  intros Hv Hw. pose proof (toordinal_range occ Hv) as Hr.
  unfold add_days, weekday, MAXORDINAL in *.
  assert (0 < toordinal occ + (7 - (toordinal occ + 6) mod 7) <= 3652059) as [H1 H2]
    by (Z.div_mod_to_equations; lia).
  apply Z.ltb_lt in H1. apply Z.leb_le in H2. rewrite H1, H2. by eexists.
Qed.

Lemma upcoming_loop_returns now recs acc :
  valid now -> year now < 9999 ->
  (forall rec b, rec ∈ recs -> Record.birthday rec = Some b ->
     valid (Birthday.value b) /\ ~ leap_day (Birthday.value b)) ->
  exists res, AddressBook.upcoming_loop now recs acc = Ok res.
Proof.
  intros Hnow Hmax. revert acc. induction recs as [|rec recs IH]; intros acc Hb.
  { by eexists. }
  assert (Hrest : forall acc', exists res, AddressBook.upcoming_loop now recs acc' = Ok res).
  { intros acc'. apply IH. intros r b Hr. apply Hb. by apply elem_of_cons; right. }
  cbn [AddressBook.upcoming_loop].
  destruct (Record.birthday rec) as [b|] eqn:Eb; [|apply Hrest].
  destruct (Hb rec b) as [Hv Hl]; [by apply elem_of_cons; left|done|].
  assert (E1 : replace_year (Birthday.value b) (year now)
               = Ok (Upcoming.this_year now (Birthday.value b)))
    by (by apply check_date_fields_valid, this_year_valid).
  rewrite E1, bind_Ok.
  assert (exists occ,
    (if ltb (Upcoming.this_year now (Birthday.value b)) now
     then replace_year (Upcoming.this_year now (Birthday.value b)) (year now + 1)
     else Ok (Upcoming.this_year now (Birthday.value b))) = Ok occ /\ valid occ)
    as (occ & -> & Vocc).
  { destruct (ltb _ now).
    - exists (Upcoming.next_year now (Birthday.value b)). split.
      + apply check_date_fields_valid.
        exact (next_year_valid now _ Hnow Hmax Hv Hl).
      + by apply next_year_valid.
    - eexists. split; [done|]. by apply this_year_valid. }
  rewrite bind_Ok. destruct (_ && _); [|apply Hrest]. cbv zeta.
  destruct (Z.eqb_spec (weekday occ) 5) as [E5|E5]; simpl.
  - destruct (add_days_weekend occ Vocc) as [rep ->]; [by left|]. rewrite bind_Ok. apply Hrest.
  - destruct (Z.eqb_spec (weekday occ) 6) as [E6|E6]; simpl.
    + destruct (add_days_weekend occ Vocc) as [rep ->]; [by right|]. rewrite bind_Ok. apply Hrest.
    + apply Hrest.
Qed.

Section extras.
Context `{Unicode}.

Lemma strptime_valid v d : strptime v = Ok d -> valid d.
Proof.
  unfold strptime. destruct (re_match _ _) as [[rest found]|]; [|done].
  destruct (negb _); [done|].
  destruct (int (groupdict found g_d)); [|done]. rewrite bind_Ok.
  destruct (int (groupdict found g_m)); [|done]. rewrite bind_Ok.
  destruct (int (groupdict found g_Y)); [|done]. rewrite bind_Ok.
  by intros [_ ?]%check_date_fields_Ok.
Qed.

Lemma Birthday_init_Ok now v b :
  Birthday.init now v = Ok b ->
  strptime v = Ok (Birthday.value b) /\ valid (Birthday.value b) /\
  leb (Birthday.value b) now = true.
Proof.
  unfold Birthday.init, Birthday.validation.
  destruct (strptime v) as [d|e] eqn:Hp.
  - rewrite bind_Ok. destruct (leb d now) eqn:Hle; simpl; [|done].
    intros [= <-]. simpl. split; [done|]. split; [by eapply strptime_valid|done].
  - apply strptime_ValueError in Hp as [m ->]. done.
Qed.

Lemma Birthday_init_Raise now v e :
  Birthday.init now v = Raise e ->
  e = ValueError InvalidDateFormat \/ e = ValidationError IncorrectDate.
Proof.
  unfold Birthday.init, Birthday.validation.
  destruct (strptime v) as [d|e'] eqn:Hp.
  - rewrite bind_Ok. destruct (leb d now); simpl; [done|]. intros [= <-]. by right.
  - apply strptime_ValueError in Hp as [m ->]. simpl. intros [= <-]. by left.
Qed.

Lemma add_phone_birthday r phone r' :
  Record.add_phone r phone = Ok r' -> Record.birthday r' = Record.birthday r.
Proof.
  intros Hadd.
  destruct (add_phone_cases r phone) as [(_ & [(_ & E)|(_ & E)])|(_ & E)];
    rewrite E in Hadd; by simplify_eq.
Qed.

Lemma remove_phone_birthday r phone r' :
  Record.remove_phone r phone = Ok r' -> Record.birthday r' = Record.birthday r.
Proof.
  intros Hrm.
  destruct (remove_phone_cases r phone) as [(i & _ & _ & _ & E)|[(_ & _ & E)|(_ & E)]];
    rewrite E in Hrm; by simplify_eq.
Qed.

Lemma edit_phone_birthday r old_phone new_phone r' :
  Record.edit_phone r old_phone new_phone = Ok r' ->
  Record.birthday r' = Record.birthday r.
Proof.
  intros Hed.
  destruct (edit_phone_cases r old_phone new_phone)
    as [(i & _ & _ & _ & _ & [(_ & _ & E)|(_ & E)])|[(_ & _ & E)|(_ & E)]];
    rewrite E in Hed; by simplify_eq.
Qed.

Lemma step_birthday_ok σ σ' :
  (forall l r, objects σ !! l = Some r -> birthday_ok r) ->
  step σ σ' ->
  forall l r, objects σ' !! l = Some r -> birthday_ok r.
Proof.
  intros Hok Hstep. destruct Hstep as
    [σ l0 name phone r0 _ Hi|σ l0 r0 phone r1 Hl Hc|σ l0 r0 phone r1 Hl Hc
    |σ l0 r0 o n r1 Hl Hc|σ now l0 r0 bd r1 Hl Hc|σ l0 data _|σ name data _];
    simpl; try done; intros l r; rewrite lookup_insert; case_decide;
    try (by apply Hok); intros [= <-].
  - unfold Record.init in Hi. destruct (_ : result (list Phone.t)); [|done].
    simpl in Hi. simplify_eq. by intros b.
  - intros b. rewrite (add_phone_birthday _ _ _ Hc). by apply (Hok l0).
  - intros b. rewrite (remove_phone_birthday _ _ _ Hc). by apply (Hok l0).
  - intros b. rewrite (edit_phone_birthday _ _ _ _ Hc). by apply (Hok l0).
  - unfold Record.add_birthday in Hc.
    destruct (Birthday.init now bd) as [b0|] eqn:Hb; [|done].
    simpl in Hc. simplify_eq. intros b [= <-].
    by apply Birthday_init_Ok in Hb as (_ & ? & _).
Qed.

Lemma reachable_birthday_ok σ :
  reachable σ -> forall l r, objects σ !! l = Some r -> birthday_ok r.
Proof.
  induction 1 as [|σ σ' _ IH Hstep]; [|by eapply step_birthday_ok].
  intros l r. simpl. by rewrite lookup_empty.
Qed.

(** X1.  In a state the operations can reach, on a valid day before the
    year 9999, [get_upcoming_birthdays] returns when no record of the book
    has its birthday on 29 February, and the list it returns holds one entry
    for each qualifying record, in the book's order. *)
Theorem upcoming_birthdays_returns (σ : state) (now : date) :
  reachable σ -> valid now -> year now < 9999 ->
  (forall rec b, rec ∈ AddressBook.values (objects σ) (book σ) ->
     Record.birthday rec = Some b -> ~ leap_day (Birthday.value b)) ->
  exists res,
    AddressBook.get_upcoming_birthdays now (objects σ) (book σ) = Ok res /\
    Forall2 (Upcoming.entry_of now)
      (filter (fun rec => Upcoming.qualifies now rec = true)
         (AddressBook.values (objects σ) (book σ)))
      res.
Proof.
  intros Hr Hnow Hmax Hleap.
  destruct (upcoming_loop_returns now (AddressBook.values (objects σ) (book σ)) []
              Hnow Hmax) as [res Hres].
  { intros rec b Hin Hb. split; [|by eapply Hleap].
    apply list_elem_of_omap in Hin as (l & _ & Hl).
    by eapply (reachable_birthday_ok σ Hr l rec). }
  exists res. split; [done|].
  by apply upcoming_loop_spec in Hres as (res' & -> & HF).
Qed.

(** X2.  The constructors and methods other than
    [get_upcoming_birthdays] raise nothing but [ValidationError], the
    [ValueError] of [Birthday] ("Invalid date format. Use DD.MM.YYYY"), the
    [ValueError] of [list.index] and [KeyError]. *)
Theorem core_operations_raise_typed_errors :
  (forall v e, Phone.init v = Raise e -> typed_error e = true) /\
  (forall now v e, Birthday.init now v = Raise e -> typed_error e = true) /\
  (forall name phone e, Record.init name phone = Raise e -> typed_error e = true) /\
  (forall r phone e, Record.find_phone r phone = Raise e -> typed_error e = true) /\
  (forall r phone e, Record.add_phone r phone = Raise e -> typed_error e = true) /\
  (forall r phone e, Record.remove_phone r phone = Raise e -> typed_error e = true) /\
  (forall r o n e, Record.edit_phone r o n = Raise e -> typed_error e = true) /\
  (forall now r v e, Record.add_birthday now r v = Raise e -> typed_error e = true) /\
  (forall book name e, AddressBook.delete book name = Raise e -> typed_error e = true).
Proof.
  assert (HP : forall v e, Phone.init v = Raise e -> typed_error e = true).
  { intros v e. unfold Phone.init. destruct (_ && _); [done|]. by intros [= <-]. }
  assert (HB : forall now v e, Birthday.init now v = Raise e -> typed_error e = true).
  { intros now v e [->| ->]%Birthday_init_Raise; done. }
  repeat split; try done.
  - intros name phone e. unfold Record.init.
    destruct phone as [p|]; [|done]. case_bool_decide; [done|].
    destruct (Phone.init p) eqn:Hp; [done|]. simpl. intros [= <-]. by eapply HP.
  - intros r phone e. unfold Record.find_phone.
    destruct (valid_phone_value_dec phone) as [Hv|Hv].
    + by rewrite matching_phones_valid.
    + destruct (Record.phones r) as [|p ps] eqn:E; [done|].
      rewrite matching_phones_invalid; [|done..]. by intros [= <-].
  - intros r phone e He.
    destruct (add_phone_cases r phone) as [(_ & [(_ & E)|(_ & E)])|(_ & E)];
      rewrite E in He; by simplify_eq.
  - intros r phone e He.
    destruct (remove_phone_cases r phone) as [(i & _ & _ & _ & E)|[(_ & _ & E)|(_ & E)]];
      rewrite E in He; by simplify_eq.
  - intros r o n e He.
    destruct (edit_phone_cases r o n)
      as [(i & _ & _ & _ & _ & [(_ & _ & E)|(_ & E)])|[(_ & _ & E)|(_ & E)]];
      rewrite E in He; by simplify_eq.
  - intros now r v e. unfold Record.add_birthday.
    destruct (Birthday.init now v) eqn:Hb; [done|]. simpl. intros [= <-]. by eapply HB.
  - intros book name e. unfold AddressBook.delete.
    destruct (decide (name ∈ dict_keys book)) as [Hin|Hin].
    + assert (exists x, dict_pop name book = Ok x) as [[v d] ->]; [|done].
      clear -Hin. unfold dict_keys in Hin.
      induction book as [|[k v] book IH]; [by apply elem_of_nil in Hin|].
      simpl. case_bool_decide; [by eexists|].
      rewrite fmap_cons in Hin. apply elem_of_cons in Hin as [?|Hin]; [done|].
      destruct (IH Hin) as [[v' d'] ->]. by eexists.
    + rewrite dict_pop_absent by done. by intros [= <-].
Qed.
End extras.

(** ** Round trips of the phone methods *)

Lemma set_phones_id r : Record.set_phones r (Record.phones r) = r.
Proof. by destruct r. Qed.

Lemma index_app_fresh (l : list str) x :
  x ∉ l -> index (l ++ [x]) x = Ok (length l).
Proof.
  induction l as [|y l IH]; simpl.
  - intros _. by rewrite bool_decide_eq_true_2.
  - intros [Hne Hin]%not_elem_of_cons.
    rewrite bool_decide_eq_false_2 by congruence. by rewrite IH.
Qed.

Lemma index_first (l : list str) x i :
  index l x = Ok i -> forall j, (j < i)%nat -> l !! j <> Some x.
Proof.
  revert i. induction l as [|y l IH]; intros i; simpl; [done|].
  case_bool_decide as E.
  - intros [= <-] j Hj. lia.
  - destruct (index l x) as [i'|] eqn:Hi; [|done]. simpl. intros [= <-] j Hj.
    destruct j as [|j]; simpl; [congruence|]. apply (IH i' eq_refl). lia.
Qed.

Lemma index_insert_fresh (l : list str) old new i :
  index l old = Ok i -> new ∉ l -> index (<[i:=new]> l) new = Ok i.
Proof.
  revert i. induction l as [|y l IH]; intros i; simpl; [done|].
  case_bool_decide as E.
  - intros [= <-] _. simpl. by rewrite bool_decide_eq_true_2.
  - destruct (index l old) as [i'|] eqn:Hi; [|done]. simpl. intros [= <-].
    intros [Hne Hin]%not_elem_of_cons. simpl.
    rewrite bool_decide_eq_false_2 by congruence. by rewrite (IH i' eq_refl Hin).
Qed.

Section record_extras.
Context `{Unicode}.

(** X3.  [remove_phone(phone)]: when [phone] is valid and among the
    phones, the first phone of that value is taken out, name and birthday
    stay, the list is one shorter and, the values being distinct, it holds
    the other values and no longer [phone]; when [phone] is valid and not
    among the phones, the [ValueError] of [list.index] is raised; when
    [phone] is not valid, [ValidationError]. *)
Theorem remove_phone_spec (r : Record.t) (phone : str) :
  (valid_phone_value phone -> phone ∈ phone_values r ->
   exists i r',
     index (phone_values r) phone = Ok i /\
     Record.remove_phone r phone = Ok r' /\
     Record.phones r' = delete i (Record.phones r) /\
     Record.name r' = Record.name r /\
     Record.birthday r' = Record.birthday r /\
     length (Record.phones r') = pred (length (Record.phones r)) /\
     (NoDup (phone_values r) ->
      forall v, v ∈ phone_values r' <-> v ∈ phone_values r /\ v <> phone)) /\
  (valid_phone_value phone -> phone ∉ phone_values r ->
   Record.remove_phone r phone = Raise (ValueError (NotInList phone))) /\
  (~ valid_phone_value phone ->
   Record.remove_phone r phone = Raise (ValidationError MustHave10Numbers)).
Proof.
  destruct (remove_phone_cases r phone)
    as [(i & Hv & Hidx & Hi & E)|[(Hv & Hnin & E)|(Hv & E)]].
  - split; [|split].
    2:{ intros _ Hnin. exfalso. apply Hnin. by eapply list_elem_of_lookup_2. }
    2:{ by intros Hn. }
    intros _ _.
    exists i, (Record.set_phones r (delete i (Record.phones r))).
    do 5 (split; [done|]). simpl. split.
    + rewrite length_delete; [lia|]. unfold phone_values in Hi.
      rewrite list_lookup_fmap in Hi. by destruct (Record.phones r !! i).
    + intros Hnd v. unfold phone_values in *. simpl. rewrite list_fmap_delete. split.
      * intros Hin. split.
        -- eapply elem_of_sublist; [done|]. apply sublist_delete.
        -- intros ->. by eapply not_elem_of_delete.
      * intros [Hin Hne]. by eapply elem_of_delete_ne.
  - split; [|split]; [by intros _ ?|done|by intros ?].
  - split; [|split]; [by intros ?|by intros ?|done].
Qed.

Lemma find_phone_present (r : Record.t) (phone : str) :
  valid_phone_value phone -> phone ∈ phone_values r ->
  Record.find_phone r phone = Ok (Some (Phone.mk phone)).
Proof.
  intros Hv Hin. rewrite find_phone_valid by done.
  apply head_filter_is_Some in Hin as [p Hp]. rewrite Hp. do 2 f_equal.
  apply head_Some_elem_of, list_elem_of_filter in Hp as [Hp _].
  destruct p. simpl in Hp. by subst.
Qed.

(** X4.  [find_phone(phone)]: on a record without phones the result is
    [None] whatever [phone] is, as [Phone(phone)] is built once for every
    element of the list; on a record with phones an invalid [phone] raises
    [ValidationError]; a valid one is found when it is among the phones and
    gives [None] otherwise. *)
Theorem find_phone_spec (r : Record.t) (phone : str) :
  (Record.phones r = [] -> Record.find_phone r phone = Ok None) /\
  (Record.phones r <> [] -> ~ valid_phone_value phone ->
   Record.find_phone r phone = Raise (ValidationError MustHave10Numbers)) /\
  (valid_phone_value phone -> phone ∈ phone_values r ->
   Record.find_phone r phone = Ok (Some (Phone.mk phone))) /\
  (valid_phone_value phone -> phone ∉ phone_values r ->
   Record.find_phone r phone = Ok None).
Proof.
  split; [|split; [|split]].
  - intros E. unfold Record.find_phone. by rewrite E.
  - intros E Hv. unfold Record.find_phone. by rewrite matching_phones_invalid.
  - apply find_phone_present.
  - intros Hv Hin. rewrite find_phone_valid by done.
    destruct (head _) eqn:Hh; [|done]. exfalso. apply Hin.
    apply head_filter_is_Some. by rewrite Hh.
Qed.

(** X5.  Adding a valid phone that the record does not hold appends it;
    [find_phone] then finds it, and [remove_phone] gives the record back as
    it was. *)
Theorem add_phone_find_remove (r : Record.t) (p : str) :
  valid_phone_value p -> p ∉ phone_values r ->
  exists r',
    Record.add_phone r p = Ok r' /\
    Record.phones r' = Record.phones r ++ [Phone.mk p] /\
    Record.find_phone r' p = Ok (Some (Phone.mk p)) /\
    Record.remove_phone r' p = Ok r.
Proof.
  intros Hv Hnin.
  destruct (add_phone_cases r p) as [(_ & [(Hin & _)|(_ & E)])|(Hn & _)]; [done| |done].
  eexists. split; [done|]. split; [done|]. split.
  - apply find_phone_present; [done|]. unfold phone_values. simpl.
    rewrite fmap_app. apply elem_of_app. right. by apply list_elem_of_singleton.
  - unfold Record.remove_phone. rewrite (Phone_init_Ok _ Hv), bind_Ok. simpl.
    rewrite fmap_app. simpl. fold (phone_values r).
    rewrite index_app_fresh by done. rewrite bind_Ok.
    unfold phone_values. rewrite length_fmap.
    rewrite (delete_middle (Record.phones r) [] (Phone.mk p)), app_nil_r.
    by destruct r.
Qed.

(** X6.  On a record whose phone values are distinct, editing a phone
    into a valid value the record does not hold keeps the number of phones,
    and editing it back restores the record. *)
Theorem edit_phone_back (r : Record.t) (old_phone new_phone : str) :
  NoDup (phone_values r) ->
  valid_phone_value old_phone -> valid_phone_value new_phone ->
  old_phone ∈ phone_values r -> new_phone ∉ phone_values r ->
  exists r',
    Record.edit_phone r old_phone new_phone = Ok r' /\
    length (Record.phones r') = length (Record.phones r) /\
    Record.edit_phone r' new_phone old_phone = Ok r.
Proof.
  intros Hnd Ho Hn Hin Hnin.
  destruct (edit_phone_cases r old_phone new_phone)
    as [(i & _ & _ & Hidx & Hi & [(Hin' & _)|(_ & E)])|[(_ & Hnin' & _)|([Hv|[_ Hv]] & _)]];
    try done.
  set (r' := Record.set_phones r (<[i:=Phone.mk new_phone]> (Record.phones r))) in *.
  assert (Hvals : phone_values r' = <[i:=new_phone]> (phone_values r)).
  { unfold phone_values. simpl. by rewrite list_fmap_insert. }
  exists r'. split; [done|]. split; [by simpl; rewrite length_insert|].
  assert (Hlt : (i < length (phone_values r))%nat) by (by eapply lookup_lt_Some).
  assert (Hold : old_phone ∉ phone_values r').
  { rewrite Hvals. rewrite insert_take_drop by done.
    rewrite <- (take_drop_middle _ _ _ Hi) in Hnd.
    apply NoDup_app in Hnd as (_ & H2 & [H3 _]%NoDup_cons).
    intros [Hl|[?|Hr]%elem_of_cons]%elem_of_app.
    - apply (H2 _ Hl). by left.
    - subst. apply Hnin. by eapply list_elem_of_lookup_2.
    - done. }
  destruct (edit_phone_cases r' new_phone old_phone)
    as [(j & _ & _ & Hj & _ & [(Hin'' & _)|(_ & E')])|[(_ & Hnin'' & _)|([Hv|[_ Hv]] & _)]];
    try done.
  - rewrite E'. f_equal. rewrite Hvals in Hj.
    rewrite (index_insert_fresh _ _ _ _ Hidx Hnin) in Hj. injection Hj as <-.
    assert (Record.phones r !! i = Some (Phone.mk old_phone)) as Hri.
    { unfold phone_values in Hi. rewrite list_lookup_fmap in Hi.
      destruct (Record.phones r !! i) as [[v]|]; simpl in Hi; by simplify_eq. }
    unfold r', Record.set_phones. simpl.
    rewrite list_insert_insert_eq, list_insert_id by done. by destruct r.
  - exfalso. apply Hnin''. rewrite Hvals. apply list_elem_of_lookup. exists i.
    by rewrite list_lookup_insert_eq.
Qed.
End record_extras.

(** ** Building records and filling the book *)

Section dict_extras.
Context {V : Type}.
Implicit Types (d : dict V) (k : str) (v : V).

Lemma dict_get_setitem k v d k' :
  dict_get k' (dict_setitem k v d) =
  if bool_decide (k' = k) then Some v else dict_get k' d.
Proof.
  induction d as [|[k0 v0] d IH]; simpl.
  - repeat case_bool_decide; congruence.
  - destruct (decide (k0 = k)) as [->|E].
    + rewrite (bool_decide_eq_true_2 (k = k)) by done. simpl.
      repeat case_bool_decide; congruence.
    + rewrite (bool_decide_eq_false_2 (k0 = k)) by done. simpl. rewrite IH.
      repeat case_bool_decide; congruence.
Qed.

Lemma dict_setitem_absent k v d :
  k ∉ dict_keys d -> dict_setitem k v d = d ++ [(k, v)].
Proof.
  unfold dict_keys. induction d as [|[k0 v0] d IH]; simpl; [done|].
  intros [Hne Hin]%not_elem_of_cons.
  rewrite bool_decide_eq_false_2 by congruence. by rewrite IH.
Qed.

Lemma dict_setitem_length k v d :
  k ∈ dict_keys d -> length (dict_setitem k v d) = length d.
Proof.
  unfold dict_keys. induction d as [|[k0 v0] d IH]; simpl.
  - by intros ?%elem_of_nil.
  - intros Hin. case_bool_decide; [done|]. simpl. f_equal. apply IH.
    apply elem_of_cons in Hin as [?|?]; [congruence|done].
Qed.

Lemma dict_pop_setitem_absent k v d :
  k ∉ dict_keys d -> dict_pop k (dict_setitem k v d) = Ok (v, d).
Proof.
  unfold dict_keys. induction d as [|[k0 v0] d IH]; simpl.
  - intros _. by rewrite bool_decide_eq_true_2.
  - intros [Hne Hin]%not_elem_of_cons.
    rewrite bool_decide_eq_false_2 by congruence. simpl.
    rewrite bool_decide_eq_false_2 by congruence. by rewrite IH.
Qed.
End dict_extras.

Section book_extras.
Context `{Unicode}.

(** X7.  [Record(name, phone)]: without a phone, or with the empty string,
    the record has no phones and nothing is validated; with a valid phone it
    holds that phone alone; with any other non-empty string the constructor
    raises [ValidationError].  The birthday is [None] in each case. *)
Theorem Record_init_spec (name : str) (phone : option str) :
  (phone = None \/ phone = Some [] ->
   Record.init name phone = Ok (Record.mk (Name.mk name) [] None)) /\
  (forall p, phone = Some p -> p <> [] -> valid_phone_value p ->
   Record.init name phone = Ok (Record.mk (Name.mk name) [Phone.mk p] None)) /\
  (forall p, phone = Some p -> p <> [] -> ~ valid_phone_value p ->
   Record.init name phone = Raise (ValidationError MustHave10Numbers)).
Proof.
  unfold Record.init. split; [|split].
  - intros [->| ->]; [done|]. by rewrite bool_decide_eq_true_2.
  - intros p -> Hp Hv. rewrite bool_decide_eq_false_2 by done.
    by rewrite (Phone_init_Ok _ Hv).
  - intros p -> Hp Hv. rewrite bool_decide_eq_false_2 by done.
    by rewrite (Phone_init_Raise _ Hv).
Qed.

(** X8.  [add_birthday(birthday)]: when it returns, the string parsed to
    a calendar date not after today, which is now the record's birthday, and
    name and phones are as before; a string that parses to such a date is
    always accepted; a failure is the format error or
    [ValidationError('Incorrect date.')]. *)
Theorem add_birthday_spec (now : date) (r : Record.t) (v : str) :
  (forall r', Record.add_birthday now r v = Ok r' ->
     exists d, strptime v = Ok d /\ valid d /\ leb d now = true /\
       Record.birthday r' = Some (Birthday.mk d) /\
       Record.name r' = Record.name r /\ Record.phones r' = Record.phones r) /\
  (forall d, strptime v = Ok d -> leb d now = true ->
     Record.add_birthday now r v =
       Ok (Record.mk (Record.name r) (Record.phones r) (Some (Birthday.mk d)))) /\
  (forall e, Record.add_birthday now r v = Raise e ->
     e = ValueError InvalidDateFormat \/ e = ValidationError IncorrectDate).
Proof.
  unfold Record.add_birthday. split; [|split].
  - intros r'. destruct (Birthday.init now v) as [b|] eqn:Hb; [|done]. simpl.
    intros [= <-]. apply Birthday_init_Ok in Hb as (Hp & Hv & Hle).
    exists (Birthday.value b). by destruct b.
  - intros d Hp Hle. rewrite (Birthday_init_past now v d); [done..|].
    unfold leb in Hle. by destruct (ltb now d).
  - intros e. destruct (Birthday.init now v) eqn:Hb; [done|]. simpl. intros [= <-].
    by eapply Birthday_init_Raise.
Qed.

(** X9.  [add_record(record)] stores the record under its name: [find]
    on that name gives the record, every other name is found as before; a
    name already in the book keeps its place among the keys, a new name goes
    to the end and [delete] on it gives the former book back; keys stay
    distinct. *)
Theorem add_record_spec (h : heap) (book : AddressBook.t) (l : loc) (r : Record.t) :
  h !! l = Some r ->
  exists book',
    AddressBook.add_record h book l = Some book' /\
    AddressBook.find book' (Name.value (Record.name r)) = Some l /\
    (forall k, k <> Name.value (Record.name r) ->
       AddressBook.find book' k = AddressBook.find book k) /\
    (Name.value (Record.name r) ∈ dict_keys book ->
       dict_keys book' = dict_keys book) /\
    (Name.value (Record.name r) ∉ dict_keys book ->
       book' = book ++ [(Name.value (Record.name r), l)] /\
       AddressBook.delete book' (Name.value (Record.name r)) = Ok book) /\
    (dict_wf book -> dict_wf book').
Proof.
  intros Hl. unfold AddressBook.add_record, AddressBook.find, AddressBook.delete.
  rewrite Hl. simpl. eexists. split; [done|]. split; [|split; [|split; [|split]]].
  - rewrite dict_get_setitem. by rewrite bool_decide_eq_true_2.
  - intros k Hk. rewrite dict_get_setitem. by rewrite bool_decide_eq_false_2.
  - intros Hin. rewrite dict_setitem_keys. by rewrite bool_decide_eq_true_2.
  - intros Hnin. split; [by apply dict_setitem_absent|].
    by rewrite dict_pop_setitem_absent.
  - apply dict_setitem_wf.
Qed.

Lemma canonical_DDMMYYYY d : valid d -> DDMMYYYY (canonical d) d.
Proof.
  intros (Hy & Hm & Hd). pose proof (days_in_month_le (year d) (month d)).
  pose proof (DDMMYYYY_intro (day d / 10) (day d mod 10) (month d / 10)
                (month d mod 10) (year d / 1000) (year d / 100 mod 10)
                (year d / 10 mod 10) (year d mod 10)) as Hi.
  assert (Es : canonical d =
    [chr_digit (day d / 10); chr_digit (day d mod 10); ord ".";
     chr_digit (month d / 10); chr_digit (month d mod 10); ord ".";
     chr_digit (year d / 1000); chr_digit (year d / 100 mod 10);
     chr_digit (year d / 10 mod 10); chr_digit (year d mod 10)]).
  { unfold canonical, zfill2, zfill4, digit, chr_digit. simpl.
    repeat f_equal; Z.div_mod_to_equations; lia. }
  assert (Ed : d = mkdate
    (1000 * (year d / 1000) + 100 * (year d / 100 mod 10) +
     10 * (year d / 10 mod 10) + year d mod 10)
    (10 * (month d / 10) + month d mod 10) (10 * (day d / 10) + day d mod 10)).
  { destruct d as [y m dd]. simpl in *. f_equal; Z.div_mod_to_equations; lia. }
  assert (Hcast : forall s s' e e', s = s' -> e = e' -> DDMMYYYY s' e' -> DDMMYYYY s e)
    by (by intros ???? -> ->).
  apply (Hcast _ _ _ _ Es Ed), Hi.
  repeat (apply Forall_cons; split; [Z.div_mod_to_equations; lia|]). constructor.
Qed.

Lemma strftime_DDMMYYYY d : valid d -> 1000 <= year d -> DDMMYYYY (strftime d) d.
Proof. intros Hv Hy. rewrite strftime_canonical by done. by apply canonical_DDMMYYYY. Qed.

End book_extras.

(** ** More on the upcoming-birthday query *)

Lemma check_date_fields_untyped y m d e :
  check_date_fields y m d = Raise e -> typed_error e = false.
Proof.
  unfold check_date_fields.
  repeat (destruct (negb _); [by intros [= <-]|]). done.
Qed.

Lemma add_days_untyped d k e : add_days d k = Raise e -> typed_error e = false.
Proof. unfold add_days. cbv zeta. destruct (_ && _); [done|]. by intros [= <-]. Qed.

(** One turn of the loop either raises, and then with an error outside the
    typed ones, or goes on with some list. *)
Lemma upcoming_loop_cons now rec recs acc :
  (exists e, AddressBook.upcoming_loop now (rec :: recs) acc = Raise e /\
             typed_error e = false) \/
  (exists acc', AddressBook.upcoming_loop now (rec :: recs) acc =
                AddressBook.upcoming_loop now recs acc').
Proof.
  cbn [AddressBook.upcoming_loop].
  destruct (Record.birthday rec) as [b|]; [|by right; eexists].
  destruct (replace_year (Birthday.value b) (year now)) as [b1|e1] eqn:H1.
  2:{ left. exists e1. split; [done|]. by eapply check_date_fields_untyped. }
  rewrite bind_Ok.
  destruct (if ltb b1 now then replace_year b1 (year now + 1) else Ok b1)
    as [occ|e2] eqn:H2.
  2:{ left. exists e2. split; [done|]. destruct (ltb b1 now); [|done].
      by eapply check_date_fields_untyped. }
  rewrite bind_Ok. destruct (_ && _); [|by right; eexists]. cbv zeta.
  destruct (if (weekday occ =? 5) || (weekday occ =? 6)
            then add_days occ (7 - weekday occ) else Ok occ) as [rep|e3] eqn:H3.
  2:{ left. exists e3. split; [done|]. destruct (_ || _); [|done].
      by eapply add_days_untyped. }
  rewrite bind_Ok. right. by eexists.
Qed.

Lemma upcoming_loop_untyped now recs acc e :
  AddressBook.upcoming_loop now recs acc = Raise e -> typed_error e = false.
Proof.
  revert acc. induction recs as [|rec recs IH]; intros acc; [done|].
  destruct (upcoming_loop_cons now rec recs acc) as [(e' & -> & He)|[acc' ->]].
  - by intros [= <-].
  - apply IH.
Qed.

Lemma upcoming_loop_leap_day now recs acc rec b :
  rec ∈ recs -> Record.birthday rec = Some b -> leap_day (Birthday.value b) ->
  is_leap (year now) = false ->
  exists e, AddressBook.upcoming_loop now recs acc = Raise e.
Proof.
  intros Hin Hb [Hm Hd] Hleap. revert acc.
  induction recs as [|rec' recs IH]; intros acc; [by apply elem_of_nil in Hin|].
  apply elem_of_cons in Hin as [<-|Hin].
  - cbn [AddressBook.upcoming_loop]. rewrite Hb.
    unfold replace_year, check_date_fields, days_in_month. rewrite Hm, Hd, Hleap.
    simpl. destruct (negb ((MINYEAR <=? year now) && _)); by eexists.
  - destruct (upcoming_loop_cons now rec' recs acc) as [(e' & -> & He)|[acc' ->]].
    + by eexists.
    + by apply IH.
Qed.

(** X11.  Whenever a record of the book, at any place, has its birthday
    on 29 February and the current year is not a leap year,
    [get_upcoming_birthdays] raises, and what it raises is none of the
    failures the classes name. *)
Theorem upcoming_birthdays_leap_day (now : date) (h : heap) (book : AddressBook.t)
    (rec : Record.t) (b : Birthday.t) :
  rec ∈ AddressBook.values h book -> Record.birthday rec = Some b ->
  leap_day (Birthday.value b) -> is_leap (year now) = false ->
  exists e, AddressBook.get_upcoming_birthdays now h book = Raise e /\
            typed_error e = false.
Proof.
  intros Hin Hb Hl Hy. unfold AddressBook.get_upcoming_birthdays.
  destruct (upcoming_loop_leap_day now _ [] rec b Hin Hb Hl Hy) as [e He].
  exists e. split; [done|]. by eapply upcoming_loop_untyped.
Qed.

Lemma omap_length_le {A B} (f : A -> option B) (l : list A) :
  (length (omap f l) <= length l)%nat.
Proof.
  induction l as [|a l IH]; [done|]. change (omap f (a :: l)) with
    (match f a with Some b => b :: omap f l | None => omap f l end).
  destruct (f a); simpl; lia.
Qed.

Lemma reported_facts now occ rep :
  Upcoming.in_window now occ = true -> Upcoming.reported occ rep ->
  valid rep /\ 0 <= Upcoming.days_until now rep <= 9 /\
  weekday rep <> 5 /\ weekday rep <> 6.
Proof.
  unfold Upcoming.in_window, Upcoming.days_until.
  intros [H0 H7]%andb_true_iff. apply Z.leb_le in H0, H7.
  intros [rep' Hw Hv Ho Hm|rep' Hw Hv Ho Hm|H5 H6 Hv]; (split; [done|]); repeat split; lia.
Qed.

Lemma year_le_of_ordinal a b :
  valid a -> valid b -> toordinal a <= toordinal b -> year a <= year b.
Proof.
  intros Ha Hb Hle.
  assert (Hlt : ltb b a = false).
  { rewrite (ltb_toordinal _ _ Hb Ha). by apply Z.ltb_ge. }
  unfold ltb in Hlt. apply orb_false_iff in Hlt as [Hy _].
  apply Z.ltb_ge in Hy. lia.
Qed.

(** X12.  When [get_upcoming_birthdays] returns, the names of the entries
    are those of the qualifying records in the book's order, there are no
    more entries than contacts, and every entry's date lies between today
    and nine days ahead and falls on neither a Saturday nor a Sunday; it is
    written DD.MM.YYYY when today is a calendar date of the year 1000 or
    later. *)
Theorem upcoming_birthdays_reported_dates (now : date) (h : heap)
    (book : AddressBook.t) (res : list AddressBook.entry) :
  AddressBook.get_upcoming_birthdays now h book = Ok res ->
  AddressBook.entry_name <$> res =
    (fun rec => Name.value (Record.name rec)) <$>
      filter (fun rec => Upcoming.qualifies now rec = true) (AddressBook.values h book) /\
  (length res <= length book)%nat /\
  Forall (fun e => exists rep,
            AddressBook.entry_birthday e = strftime rep /\
            (valid now -> 1000 <= year now -> DDMMYYYY (strftime rep) rep) /\
            0 <= Upcoming.days_until now rep <= 9 /\
            weekday rep <> 5 /\ weekday rep <> 6) res.
Proof.
  unfold AddressBook.get_upcoming_birthdays. intros Hres.
  apply upcoming_loop_spec in Hres as (res' & -> & HF). simpl.
  assert (Hlen : (length (filter (fun rec => Upcoming.qualifies now rec = true)
                            (AddressBook.values h book)) <= length book)%nat).
  { etrans; [apply length_filter|]. unfold AddressBook.values.
    etrans; [apply omap_length_le|]. unfold dict_values. by rewrite length_fmap. }
  rewrite <- (Forall2_length _ _ _ HF). split; [|split; [done|]].
  - clear Hlen. induction HF as [|rec e recs es [Hn _] _ IH]; [done|].
    rewrite !fmap_cons. by rewrite Hn, IH.
  - assert (Hq : Forall (fun rec => Upcoming.qualifies now rec = true)
                   (filter (fun rec => Upcoming.qualifies now rec = true)
                      (AddressBook.values h book))).
    { apply Forall_forall. by intros rec [? _]%list_elem_of_filter. }
    clear Hlen. induction HF as [|rec e recs es [_ (b & rep & Hb & Hrep & He)] _ IH];
      [done|].
    apply Forall_cons in Hq as [Hq Hqs]. constructor; [|by apply IH].
    unfold Upcoming.qualifies in Hq. rewrite Hb in Hq.
    destruct (reported_facts _ _ _ Hq Hrep) as (Hv & Hd & H5 & H6).
    exists rep. split; [done|]. split; [|done].
    intros Hnow Hy. apply strftime_DDMMYYYY; [done|].
    pose proof (year_le_of_ordinal now rep Hnow Hv) as Hle.
    unfold Upcoming.days_until in Hd. lia.
Qed.

Lemma upcoming_loop_Ok_valid now recs acc res rec b :
  AddressBook.upcoming_loop now recs acc = Ok res ->
  rec ∈ recs -> Record.birthday rec = Some b ->
  valid (Upcoming.occurrence now (Birthday.value b)).
Proof.
  revert acc. induction recs as [|rec' recs IH]; intros acc Hloop Hin Hb;
    [by apply elem_of_nil in Hin|].
  apply elem_of_cons in Hin as [<-|Hin].
  - cbn [AddressBook.upcoming_loop] in Hloop. rewrite Hb in Hloop.
    destruct (replace_year (Birthday.value b) (year now)) as [b1|] eqn:H1; [|done].
    rewrite bind_Ok in Hloop. apply replace_year_Ok in H1 as [E1 V1].
    change (mkdate _ _ _) with (Upcoming.this_year now (Birthday.value b)) in E1.
    unfold Upcoming.occurrence. rewrite <- E1.
    destruct (ltb b1 now); [|done].
    destruct (replace_year b1 (year now + 1)) as [b2|] eqn:H2; [|done].
    apply replace_year_Ok in H2 as [E2 V2]. rewrite E1 in E2. simpl in E2.
    unfold Upcoming.next_year. by rewrite <- E2.
  - destruct (upcoming_loop_cons now rec' recs acc) as [(e' & He & _)|[acc' He]];
      rewrite He in Hloop; [done|]. by eapply IH.
Qed.

Lemma occurrence_days_until now b :
  valid now -> valid (Upcoming.occurrence now b) ->
  0 <= Upcoming.days_until now (Upcoming.occurrence now b).
Proof.
  intros Hnow Hocc. unfold Upcoming.days_until.
  destruct (ltb (Upcoming.occurrence now b) now) eqn:Hlt.
  - exfalso. unfold Upcoming.occurrence in Hlt.
    destruct (ltb (Upcoming.this_year now b) now) eqn:Hty; [|congruence].
    unfold ltb, Upcoming.next_year in Hlt. simpl in Hlt.
    destruct (Z.ltb_spec (year now + 1) (year now)); [lia|].
    destruct (Z.eqb_spec (year now + 1) (year now)); [lia|]. done.
  - rewrite (ltb_toordinal _ _ Hocc Hnow) in Hlt. apply Z.ltb_ge in Hlt. lia.
Qed.

Lemma filter_ext_in {A} (P Q : A -> Prop) `{forall x, Decision (P x)}
    `{forall x, Decision (Q x)} (l : list A) :
  (forall x, x ∈ l -> P x <-> Q x) -> filter P l = filter Q l.
Proof.
  induction l as [|a l IH]; [done|]. intros Hpq. rewrite !filter_cons.
  rewrite IH by (intros x Hx; apply Hpq; by right).
  pose proof (Hpq a (list_elem_of_here a l)). repeat case_decide; tauto.
Qed.

(** X13.  When [get_upcoming_birthdays] returns, a contact of the book
    whose birthday has today's month and day has an entry in the list: under
    its name, dated today, or the Monday that follows when today is a
    Saturday or a Sunday. *)
Theorem birthday_today_is_upcoming (now : date) (h : heap) (book : AddressBook.t)
    (res : list AddressBook.entry) (rec : Record.t) (b : Birthday.t) :
  AddressBook.get_upcoming_birthdays now h book = Ok res ->
  rec ∈ AddressBook.values h book -> Record.birthday rec = Some b ->
  month (Birthday.value b) = month now -> day (Birthday.value b) = day now ->
  exists e rep,
    e ∈ res /\
    AddressBook.entry_name e = Name.value (Record.name rec) /\
    AddressBook.entry_birthday e = strftime rep /\
    Upcoming.reported now rep.
Proof.
  unfold AddressBook.get_upcoming_birthdays. intros Hres Hin Hb Hm Hd.
  apply upcoming_loop_spec in Hres as (res' & -> & HF). simpl.
  assert (E : Upcoming.occurrence now (Birthday.value b) = now).
  { unfold Upcoming.occurrence, Upcoming.this_year. rewrite Hm, Hd.
    replace (mkdate (year now) (month now) (day now)) with now by (by destruct now).
    by rewrite ltb_irrefl. }
  assert (Hq : Upcoming.qualifies now rec = true).
  { unfold Upcoming.qualifies. rewrite Hb, E.
    unfold Upcoming.in_window, Upcoming.days_until. by rewrite Z.sub_diag. }
  assert (Hf : rec ∈ filter (fun rec => Upcoming.qualifies now rec = true)
                 (AddressBook.values h book)) by (by apply list_elem_of_filter).
  apply list_elem_of_lookup in Hf as [i Hi].
  destruct (Forall2_lookup_l _ _ _ _ _ HF Hi) as (e & He & Hn & b' & rep & Hb' & Hrep & Hs).
  rewrite Hb in Hb'. injection Hb' as <-. rewrite E in Hrep.
  exists e, rep. split; [by eapply list_elem_of_lookup_2|done].
Qed.

(** X14.  When [get_upcoming_birthdays] returns on a calendar day, the
    occurrence it looked at for each birthday of the book is today or later:
    the lower bound of the test [0 <= days <= 7] excludes no contact, and
    the list is the one of the contacts whose occurrence is at most seven
    days ahead. *)
Theorem occurrence_not_in_the_past (now : date) (h : heap) (book : AddressBook.t)
    (res : list AddressBook.entry) :
  valid now ->
  AddressBook.get_upcoming_birthdays now h book = Ok res ->
  (forall rec b, rec ∈ AddressBook.values h book -> Record.birthday rec = Some b ->
     0 <= toordinal (Upcoming.occurrence now (Birthday.value b)) - toordinal now) /\
  Forall2 (Upcoming.entry_of now)
    (filter (fun rec => match Record.birthday rec with
                        | Some b =>
                            toordinal (Upcoming.occurrence now (Birthday.value b))
                              - toordinal now <=? 7
                        | None => false
                        end = true)
       (AddressBook.values h book))
    res.
Proof.
  unfold AddressBook.get_upcoming_birthdays. intros Hnow Hres.
  assert (H0 : forall rec b, rec ∈ AddressBook.values h book ->
    Record.birthday rec = Some b ->
    0 <= toordinal (Upcoming.occurrence now (Birthday.value b)) - toordinal now).
  { intros rec b Hin Hb. apply (occurrence_days_until now _ Hnow).
    by eapply upcoming_loop_Ok_valid. }
  split; [done|].
  apply upcoming_loop_spec in Hres as (res' & -> & HF). simpl.
  rewrite (filter_ext_in _ (fun rec => Upcoming.qualifies now rec = true)); [done|].
  intros rec Hin. unfold Upcoming.qualifies, Upcoming.in_window, Upcoming.days_until.
  destruct (Record.birthday rec) as [b|] eqn:Hb; [|done].
  specialize (H0 rec b Hin Hb). apply Z.leb_le in H0. by rewrite H0.
Qed.

(** ** The command handlers always answer *)

Lemma upcoming_loop_raises now recs acc e :
  AddressBook.upcoming_loop now recs acc = Raise e ->
  e = ValueError YearOutOfRange \/ e = ValueError MonthOutOfRange \/
  e = ValueError DayOutOfRange.
Proof.
  assert (Hc : forall y m d e', check_date_fields y m d = Raise e' ->
    e' = ValueError YearOutOfRange \/ e' = ValueError MonthOutOfRange \/
    e' = ValueError DayOutOfRange).
  { intros y m d e'. unfold check_date_fields.
    repeat (destruct (negb _); [intros [= <-]; eauto|]). done. }
  revert acc. induction recs as [|rec recs IH]; intros acc; [done|].
  cbn [AddressBook.upcoming_loop].
  destruct (Record.birthday rec) as [b|]; [|apply IH].
  destruct (replace_year (Birthday.value b) (year now)) as [b1|e1] eqn:H1.
  2:{ intros [= <-]. by eapply Hc. }
  rewrite bind_Ok. apply replace_year_Ok in H1 as [_ V1].
  destruct (if ltb b1 now then replace_year b1 (year now + 1) else Ok b1)
    as [occ|e2] eqn:H2.
  2:{ intros [= <-]. destruct (ltb b1 now); [|done]. by eapply Hc. }
  assert (Vocc : valid occ).
  { destruct (ltb b1 now); [by apply replace_year_Ok in H2 as [_ ?]|congruence]. }
  rewrite bind_Ok. destruct (_ && _); [|apply IH]. cbv zeta.
  destruct (Z.eqb_spec (weekday occ) 5) as [E5|E5]; simpl.
  - destruct (add_days_weekend occ Vocc) as [rep ->]; [by left|]. rewrite bind_Ok. apply IH.
  - destruct (Z.eqb_spec (weekday occ) 6) as [E6|E6]; simpl.
    + destruct (add_days_weekend occ Vocc) as [rep ->]; [by right|]. rewrite bind_Ok.
      apply IH.
    + apply IH.
Qed.

Lemma dict_pop_Raise {V} (k : str) (d : dict V) e :
  dict_pop k d = Raise e -> e = KeyError k.
Proof.
  induction d as [|[k0 v0] d IH]; simpl; [by intros [= <-]|].
  case_bool_decide; [done|]. destruct (dict_pop k d) as [[v d']|e']; [done|].
  simpl. intros [= <-]. by apply IH.
Qed.

Section commands.
Context `{Unicode}.
Import Main.

Lemma rtc_step_store_ok σ σ' : store_ok σ -> rtc step σ σ' -> store_ok σ'.
Proof. intros Hok. induction 1; [done|]. eauto using step_store_ok. Qed.

Lemma rtc_step_reachable σ σ' : reachable σ -> rtc step σ σ' -> reachable σ'.
Proof. intros Hr. induction 1; [done|]. eauto using reachable_step. Qed.

Lemma store_ok_find σ name l :
  store_ok σ -> AddressBook.find (book σ) name = Some l ->
  exists r, objects σ !! l = Some r /\ Name.value (Record.name r) = name.
Proof. intros (_ & Hb & _) Hf. apply dict_get_Some in Hf. by apply Hb. Qed.

Lemma safe_ret {A} (a : A) σ : safe (mret a) σ.
Proof. exists σ, (Return a). by repeat split. Qed.

Lemma safe_throw {A} (e : raised) σ :
  e <> Core OverflowError -> safe (@throw A e) σ.
Proof. intros He. exists σ, (Throw e). repeat split; [done|]. by intros ? [= <-]. Qed.

Lemma safe_bind {A B} (m : cmd A) (f : A -> cmd B) σ :
  safe m σ ->
  (forall σ1 a, m σ = Some (σ1, Return a) -> rtc step σ σ1 -> safe (f a) σ1) ->
  safe (m ≫= f) σ.
Proof.
  intros (σ1 & out & Hm & Hs & Hout) Hf. unfold safe, mbind, cmd_bind. rewrite Hm.
  destruct out as [a|e].
  - destruct (Hf σ1 a Hm Hs) as (σ2 & out2 & Hf2 & Hs2 & Hout2).
    exists σ2, out2. split; [done|]. split; [by etrans|done].
  - exists σ1, (Throw e). split; [done|]. split; [done|].
    intros e' [= <-]. by apply Hout.
Qed.

Lemma safe_book_find name σ (f : option loc -> cmd reply) :
  safe (f (AddressBook.find (book σ) name)) σ -> safe (book_find name ≫= f) σ.
Proof.
  intros Hf. apply safe_bind.
  - eexists σ, _. by repeat split.
  - by intros σ1 a [= <- <-] _.
Qed.

Lemma safe_method σ l r (m : Record.t -> result Record.t) :
  objects σ !! l = Some r ->
  (forall r', m r = Ok r' -> step σ (mk_state (<[l := r']> (objects σ)) (book σ))) ->
  (forall e, m r = Raise e -> e <> OverflowError) ->
  safe (method l m) σ.
Proof.
  intros Hl Hok Herr. unfold safe, method. rewrite Hl. simpl.
  destruct (m r) as [r'|e] eqn:Hm.
  - eexists _, _. split; [done|]. split; [by apply rtc_once, Hok|done].
  - eexists _, _. split; [done|]. split; [done|].
    intros e' [= <-] [= ->]. by eapply Herr.
Qed.

Lemma safe_deref σ l r (f : Record.t -> cmd reply) :
  objects σ !! l = Some r -> safe (f r) σ -> safe (deref l ≫= f) σ.
Proof.
  intros Hl Hf. apply safe_bind.
  - exists σ, (Return r). unfold deref. rewrite Hl. by repeat split.
  - intros σ1 a. unfold deref. rewrite Hl. simpl. by intros [= <- <-] _.
Qed.

Lemma safe_add_phone σ l r p :
  objects σ !! l = Some r -> safe (method l (fun r => Record.add_phone r p)) σ.
Proof.
  intros Hl. eapply safe_method; [done|..].
  - intros r' Hr'. by eapply step_add_phone.
  - intros e He ->.
    destruct (add_phone_cases r p) as [(_ & [(_ & E)|(_ & E)])|(_ & E)];
      rewrite E in He; by simplify_eq.
Qed.

Lemma safe_remove_phone σ l r p :
  objects σ !! l = Some r -> safe (method l (fun r => Record.remove_phone r p)) σ.
Proof.
  intros Hl. eapply safe_method; [done|..].
  - intros r' Hr'. by eapply step_remove_phone.
  - intros e He ->.
    destruct (remove_phone_cases r p) as [(i & _ & _ & _ & E)|[(_ & _ & E)|(_ & E)]];
      rewrite E in He; by simplify_eq.
Qed.

Lemma safe_edit_phone σ l r o n :
  objects σ !! l = Some r -> safe (method l (fun r => Record.edit_phone r o n)) σ.
Proof.
  intros Hl. eapply safe_method; [done|..].
  - intros r' Hr'. by eapply step_edit_phone.
  - intros e He ->.
    destruct (edit_phone_cases r o n)
      as [(i & _ & _ & _ & _ & [(_ & _ & E)|(_ & E)])|[(_ & _ & E)|(_ & E)]];
      rewrite E in He; by simplify_eq.
Qed.

Lemma safe_add_birthday σ now l r v :
  objects σ !! l = Some r ->
  safe (method l (fun r => Record.add_birthday now r v)) σ.
Proof.
  intros Hl. eapply safe_method; [done|..].
  - intros r' Hr'. by eapply step_add_birthday.
  - intros e He ->. unfold Record.add_birthday in He.
    destruct (Birthday.init now v) eqn:Hb; [done|]. simpl in He. simplify_eq.
    by apply Birthday_init_Raise in Hb as [?|?].
Qed.

Lemma answers_intro (func : cmd reply) :
  (forall σ, store_ok σ -> safe func σ) -> answers (input_error func).
Proof.
  intros Hs σ Hok. destruct (Hs σ Hok) as (σ' & out & Hf & Hst & Hout).
  assert (Hok' : store_ok σ') by (by eapply rtc_step_store_ok).
  unfold input_error. rewrite Hf. destruct out as [r|e]; [by eexists _, _|].
  destruct e as [[m|m|k|]| | |]; try (by eexists _, _).
  by destruct (Hout _ eq_refl).
Qed.

Lemma safe_add_contact args σ : store_ok σ -> safe (func.add_contact args) σ.
Proof.
  intros Hok. unfold func.add_contact.
  assert (Hphone : forall σ1 l r (phone : option str) msg,
    objects σ1 !! l = Some r ->
    safe (match phone with
          | Some p => if bool_decide (p = []) then mret ()
                      else method l (fun r => Record.add_phone r p)
          | None => mret ()
          end ≫= fun _ => mret (Text msg)) σ1).
  { intros σ1 l r phone msg Hl. apply safe_bind; [|intros; apply safe_ret].
    destruct phone as [p|]; [|apply safe_ret].
    case_bool_decide; [apply safe_ret|]. by eapply safe_add_phone. }
  assert (Hrest : forall name phone,
    safe (book_find name ≫= fun found =>
       (match found with
        | Some record => mret (record, lit "Contact update.")
        | None => record ← new_Record name;
                  book_add_record record;; mret (record, lit "Contact added.")
        end) ≫= fun '(record, msg) =>
       match phone with
       | Some p => if bool_decide (p = []) then mret ()
                   else method record (fun r => Record.add_phone r p)
       | None => mret ()
       end ≫= fun _ => mret (Text msg)) σ).
  { intros name phone. apply safe_book_find.
    destruct (AddressBook.find (book σ) name) as [l|] eqn:Hf.
    - destruct (store_ok_find _ _ _ Hok Hf) as (r & Hl & _).
      apply safe_bind; [apply safe_ret|]. intros σ1 [l' msg] [= <- <- <-] _.
      by eapply Hphone.
    - set (l := fresh (dom (objects σ))).
      assert (Hfresh : objects σ !! l = None) by apply not_elem_of_dom, is_fresh.
      set (r := Record.mk (Name.mk name) [] None).
      set (σ1 := mk_state (<[l := r]> (objects σ)) (book σ)).
      set (σ2 := mk_state (objects σ1) (dict_setitem name l (book σ))).
      assert (S1 : step σ σ1) by (by apply (step_Record σ l name None r)).
      assert (S2 : step σ1 σ2).
      { apply (step_add_record σ1 l). unfold AddressBook.add_record. simpl.
        by rewrite lookup_insert_eq. }
      apply safe_bind.
      + exists σ2, (Return (l, lit "Contact added.")). split; [|split; [|done]].
        * unfold mbind, cmd_bind, new_Record, book_add_record, AddressBook.add_record.
          simpl. fold l. by rewrite lookup_insert_eq.
        * etrans; by apply rtc_once.
      + intros σ' [l' msg] Hrun _.
        assert (σ' = σ2 /\ l' = l) as [-> ->].
        { revert Hrun.
          unfold mbind, cmd_bind, new_Record, book_add_record, AddressBook.add_record.
          simpl. fold l. rewrite lookup_insert_eq. simpl. by intros [= <- <- _]. }
        apply (Hphone σ2 l r). simpl. by rewrite lookup_insert_eq. }
  destruct args as [|name [|phone rest]].
  - apply safe_throw. done.
  - apply (Hrest name None).
  - apply (Hrest name (Some phone)).
Qed.

Lemma safe_with_record σ name (body : loc -> cmd reply) :
  store_ok σ ->
  (forall l r, objects σ !! l = Some r -> safe (body l) σ) ->
  safe (found ← book_find name;
        match found with
        | Some record => body record
        | None => throw AttributeError
        end) σ.
Proof.
  intros Hok Hbody. apply safe_book_find.
  destruct (AddressBook.find (book σ) name) as [l|] eqn:Hf; [|by apply safe_throw].
  destruct (store_ok_find _ _ _ Hok Hf) as (r & Hl & _). by eapply Hbody.
Qed.

Lemma safe_then σ name (m : loc -> cmd unit) (text : str) :
  store_ok σ ->
  (forall l r, objects σ !! l = Some r -> safe (m l) σ) ->
  safe ((found ← book_find name;
         match found with
         | Some record => m record
         | None => throw AttributeError
         end);; mret (Text text)) σ.
Proof.
  intros Hok Hm. apply safe_bind; [|intros; apply safe_ret].
  apply safe_bind.
  - eexists σ, _. by repeat split.
  - intros σ1 a [= <- <-] _.
    destruct (AddressBook.find (book σ) name) as [l|] eqn:Hf; [|by apply safe_throw].
    destruct (store_ok_find _ _ _ Hok Hf) as (r & Hl & _). by eapply Hm.
Qed.

(** X15.  Every decorated handler answers: from a session that keeps the
    invariant it returns a reply, no exception goes through [input_error],
    and the session it leaves is reached by calls of the classes and keeps
    the invariant. *)
Theorem handlers_answer (now : date) (args : list str) :
  answers (Main.add_contact args) /\
  answers (Main.change_contact args) /\
  answers (Main.remove_phone args) /\
  answers (Main.delete_contact args) /\
  answers (Main.show_phone args) /\
  answers Main.show_all_contacts /\
  answers (Main.add_birthday now args) /\
  answers (Main.show_birthday args) /\
  answers (Main.birthdays now).
Proof.
  repeat split; apply answers_intro; intros σ Hok.
  - by apply safe_add_contact.
  - unfold func.change_contact.
    destruct args as [|name [|o [|n rest]]]; try (by apply safe_throw).
    apply safe_then; [done|]. intros l r Hl. by eapply safe_edit_phone.
  - unfold func.remove_phone.
    destruct args as [|name [|p rest]]; try (by apply safe_throw).
    apply safe_then; [done|]. intros l r Hl. by eapply safe_remove_phone.
  - unfold func.delete_contact. destruct args as [|name rest]; [by apply safe_throw|].
    apply safe_bind; [|intros; apply safe_ret]. unfold safe, book_delete.
    destruct (AddressBook.delete (book σ) name) as [data|e] eqn:Hd.
    + eexists _, _. split; [done|]. split; [|done]. by apply rtc_once, (step_delete σ name).
    + eexists _, _. split; [done|]. split; [done|]. intros e' [= <-] [= ->].
      unfold AddressBook.delete in Hd.
      destruct (dict_pop name (book σ)) as [[v d]|e] eqn:Hp; [done|].
      simpl in Hd. simplify_eq.
      by apply dict_pop_Raise in Hp.
  - unfold func.show_phone. destruct args as [|name rest]; [by apply safe_throw|].
    apply safe_with_record; [done|]. intros l r Hl.
    eapply safe_deref; [done|apply safe_ret].
  - apply safe_ret.
  - unfold func.add_birthday.
    destruct args as [|name [|b rest]]; try (by apply safe_throw).
    apply safe_with_record; [done|]. intros l r Hl.
    eapply safe_deref; [done|]. cbv zeta.
    apply safe_bind; [by eapply safe_add_birthday|intros; apply safe_ret].
  - unfold func.show_birthday. destruct args as [|name rest]; [by apply safe_throw|].
    apply safe_with_record; [done|]. intros l r Hl.
    eapply safe_deref; [done|apply safe_ret].
  - unfold func.birthdays. apply safe_bind; [|intros; apply safe_ret].
    unfold safe, book_get_upcoming_birthdays. eexists σ, _. split; [done|].
    split; [done|]. intros e.
    destruct (AddressBook.get_upcoming_birthdays now (objects σ) (book σ))
      as [res|e'] eqn:Hg; [done|].
    intros [= <-] [= ->]. apply upcoming_loop_raises in Hg as [?|[?|?]]; done.
Qed.
End commands.

(** ** The replies of the command handlers *)

Lemma state_eta σ : mk_state (objects σ) (book σ) = σ.
Proof. by destruct σ. Qed.

Section replies.
Context `{Unicode}.
Import Main.

Lemma run_method {B} σ l r (m : Record.t -> result Record.t) (f : unit -> cmd B) :
  objects σ !! l = Some r ->
  (method l m ≫= f) σ =
  match m r with
  | Ok r' => f () (mk_state (<[l := r']> (objects σ)) (book σ))
  | Raise e => Some (σ, Throw (Core e))
  end.
Proof.
  intros Hl. unfold mbind at 1, cmd_bind, method. rewrite Hl. simpl.
  by destruct (m r).
Qed.

Lemma run_deref {B} σ l r (f : Record.t -> cmd B) :
  objects σ !! l = Some r -> (deref l ≫= f) σ = f r σ.
Proof. intros Hl. unfold mbind, cmd_bind, deref. by rewrite Hl. Qed.

Lemma not_digit_isdigit (text : str) (c : char) :
  ascii_digits -> text !! 1%nat = Some c -> (c < 128)%N -> ~ (48 <= c <= 57)%N ->
  isdigit (slice 1 11 text) = false.
Proof.
  intros Ha Hc H128 Hn. destruct text as [|a [|c' text]]; try done.
  simpl in Hc. injection Hc as ->. unfold isdigit, slice. simpl.
  destruct (isdigit_char c) eqn:Hd; [|done].
  by apply Ha in Hd.
Qed.

Lemma generic_reply (text : str) (c : char) :
  ascii_digits -> text !! 1%nat = Some c -> (c < 128)%N -> ~ (48 <= c <= 57)%N ->
  take 12 text <> lit "Invalid date" ->
  except_ValueError_IndexError text = Text (lit "Enter the argument for the command.").
Proof.
  intros Ha Hc H128 Hn Hs. unfold except_ValueError_IndexError, startswith.
  rewrite (not_digit_isdigit text c) by done.
  by rewrite bool_decide_eq_false_2.
Qed.

Lemma unpack_reply (expected got : nat) :
  ascii_digits ->
  except_ValueError_IndexError (unpack_message expected got) =
  Text (lit "Enter the argument for the command.").
Proof.
  intros Ha. apply (generic_reply _ 111%N); [done|reflexivity|lia|lia|].
  intros E. vm_compute in E. discriminate.
Qed.

Lemma index_reply :
  ascii_digits ->
  except_ValueError_IndexError (lit "list index out of range") =
  Text (lit "Enter the argument for the command.").
Proof.
  intros Ha. apply (generic_reply _ 105%N); [done|reflexivity|lia|lia|].
  intros E. vm_compute in E. discriminate.
Qed.

Lemma date_field_reply (m : value_error) :
  ascii_digits ->
  m = YearOutOfRange \/ m = MonthOutOfRange \/ m = DayOutOfRange ->
  except_ValueError_IndexError (message m) =
  Text (lit "Enter the argument for the command.").
Proof.
  intros Ha [->|[->| ->]].
  - apply (generic_reply _ 101%N); [done|reflexivity|lia|lia|].
    intros E. vm_compute in E. discriminate.
  - apply (generic_reply _ 111%N); [done|reflexivity|lia|lia|].
    intros E. vm_compute in E. discriminate.
  - apply (generic_reply _ 97%N); [done|reflexivity|lia|lia|].
    intros E. vm_compute in E. discriminate.
Qed.

Lemma not_in_list_reply (x : str) :
  valid_phone_value x ->
  except_ValueError_IndexError (message (NotInList x)) =
  Text (lit "'" ++ x ++ lit "' is not in list.").
Proof.
  intros [Hlen Hdig]. unfold except_ValueError_IndexError.
  assert (slice 1 11 (message (NotInList x)) = x) as ->.
  { change (take 10 (x ++ lit "' is not in list") = x).
    rewrite <- Hlen. by rewrite take_app_length. }
  assert (isdigit x = true) as ->.
  { apply isdigit_spec. split; [|done]. by intros ->. }
  simpl. f_equal. unfold message. by rewrite <- !app_assoc.
Qed.

Lemma invalid_date_reply :
  except_ValueError_IndexError (message InvalidDateFormat) =
  Text (lit "Invalid date format. Use DD.MM.YYYY.").
Proof.
  unfold except_ValueError_IndexError.
  assert (startswith (message InvalidDateFormat) (lit "Invalid date") = true) as ->
    by (vm_compute; reflexivity).
  by rewrite orb_true_r.
Qed.

(** X16.  [add_contact] on a name the book does not hold creates the
    record and puts it in the book: without a phone, or with a valid one
    (which the record then holds), the reply is 'Contact added.'; with an
    invalid phone the reply is the [ValidationError] and the contact has
    been added all the same, without phones. *)
Theorem add_contact_new (name : str) (σ : state) :
  AddressBook.find (book σ) name = None ->
  (exists σ',
     Main.add_contact [name] σ = Some (σ', Return (Text (lit "Contact added."))) /\
     added σ σ' name []) /\
  (forall phone rest, valid_phone_value phone ->
     exists σ',
       Main.add_contact (name :: phone :: rest) σ =
         Some (σ', Return (Text (lit "Contact added."))) /\
       added σ σ' name [Phone.mk phone]) /\
  (forall phone rest, phone <> [] -> ~ valid_phone_value phone ->
     exists σ',
       Main.add_contact (name :: phone :: rest) σ =
         Some (σ', Return (Caught MustHave10Numbers)) /\
       added σ σ' name []).
Proof.
  intros Hf. set (l := fresh (dom (objects σ))).
  assert (Hfresh : objects σ !! l = None) by apply not_elem_of_dom, is_fresh.
  assert (Hkey : name ∉ dict_keys (book σ)) by (by apply dict_get_None).
  unfold Main.add_contact, input_error, func.add_contact.
  split; [|split].
  - eexists. split.
    + unfold mbind, cmd_bind, mret, cmd_ret, book_find, new_Record, book_add_record,
        AddressBook.add_record. simpl. rewrite Hf. simpl. fold l.
      rewrite lookup_insert_eq. simpl. reflexivity.
    + exists l. simpl. split; [done|]. split; [done|]. by apply dict_setitem_absent.
  - intros phone rest Hv.
    assert (Hne : phone <> []) by (intros ->; by destruct Hv).
    eexists. split.
    + unfold mbind, cmd_bind, mret, cmd_ret, book_find, new_Record, book_add_record,
        AddressBook.add_record, method. simpl. rewrite Hf. simpl. fold l.
      rewrite lookup_insert_eq. simpl. rewrite bool_decide_eq_false_2 by done.
      simpl. rewrite lookup_insert_eq. simpl.
      destruct (add_phone_cases (Record.mk (Name.init name) [] None) phone)
        as [(_ & [(Hin & _)|(_ & ->)])|(Hn & _)]; [by apply elem_of_nil in Hin| |done].
      reflexivity.
    + exists l. simpl. split; [done|]. split; [by rewrite insert_insert_eq|].
      by apply dict_setitem_absent.
  - intros phone rest Hne Hn. eexists. split.
    + unfold mbind, cmd_bind, mret, cmd_ret, book_find, new_Record, book_add_record,
        AddressBook.add_record, method. simpl. rewrite Hf. simpl. fold l.
      rewrite lookup_insert_eq. simpl. rewrite bool_decide_eq_false_2 by done.
      simpl. rewrite lookup_insert_eq. simpl.
      destruct (add_phone_cases (Record.mk (Name.init name) [] None) phone)
        as [(Hv & _)|(_ & ->)]; [done|].
      reflexivity.
    + exists l. simpl. split; [done|]. split; [done|]. by apply dict_setitem_absent.
Qed.
(** X17.  [add_contact] on a name the book holds replies
    'Contact update.': a valid phone the record does not hold is appended, a
    phone it holds or no phone leaves the session as it was; an invalid
    phone gives the [ValidationError] and changes nothing. *)
Theorem add_contact_existing (name : str) (σ : state) (l : loc) (r : Record.t) :
  AddressBook.find (book σ) name = Some l -> objects σ !! l = Some r ->
  Main.add_contact [name] σ = Some (σ, Return (Text (lit "Contact update."))) /\
  (forall phone rest, valid_phone_value phone -> phone ∉ phone_values r ->
     Main.add_contact (name :: phone :: rest) σ =
       Some (mk_state
               (<[l := Record.set_phones r (Record.phones r ++ [Phone.mk phone])]>
                  (objects σ))
               (book σ),
             Return (Text (lit "Contact update.")))) /\
  (forall phone rest, valid_phone_value phone -> phone ∈ phone_values r ->
     Main.add_contact (name :: phone :: rest) σ =
       Some (σ, Return (Text (lit "Contact update.")))) /\
  (forall phone rest, phone <> [] -> ~ valid_phone_value phone ->
     Main.add_contact (name :: phone :: rest) σ =
       Some (σ, Return (Caught MustHave10Numbers))).
Proof.
  intros Hf Hl. unfold Main.add_contact, input_error, func.add_contact.
  assert (Hrun : forall phone rest, phone <> [] ->
    (let (σ1, out) :=
       match Record.add_phone r phone with
       | Ok r' => (mk_state (<[l := r']> (objects σ)) (book σ),
                   Return (Text (lit "Contact update.")))
       | Raise e => (σ, Throw (Core e))
       end in
     func.add_contact (name :: phone :: rest) σ = Some (σ1, out))).
  { intros phone rest Hne. unfold func.add_contact.
    unfold mbind, cmd_bind, mret, cmd_ret, book_find, method. simpl.
    rewrite Hf. simpl. rewrite bool_decide_eq_false_2 by done. rewrite Hl. simpl.
    by destruct (Record.add_phone r phone). }
  split; [|split; [|split]].
  - unfold mbind, cmd_bind, mret, cmd_ret, book_find. simpl. by rewrite Hf.
  - intros phone rest Hv Hnin.
    assert (Hne : phone <> []) by (intros ->; by destruct Hv).
    specialize (Hrun phone rest Hne). unfold func.add_contact in Hrun.
    destruct (add_phone_cases r phone) as [(_ & [(Hin & _)|(_ & E)])|(Hn & _)];
      [done| |done].
    rewrite E in Hrun. by rewrite Hrun.
  - intros phone rest Hv Hin.
    assert (Hne : phone <> []) by (intros ->; by destruct Hv).
    specialize (Hrun phone rest Hne). unfold func.add_contact in Hrun.
    destruct (add_phone_cases r phone) as [(_ & [(_ & E)|(Hnin & _)])|(Hn & _)];
      [|done|done].
    rewrite E in Hrun. rewrite Hrun. by rewrite insert_id, state_eta.
  - intros phone rest Hne Hn.
    specialize (Hrun phone rest Hne). unfold func.add_contact in Hrun.
    destruct (add_phone_cases r phone) as [(Hv & _)|(_ & E)]; [done|].
    rewrite E in Hrun. by rewrite Hrun.
Qed.

(** X18.  For a name the book does not hold, [change_contact],
    [remove_phone], [delete_contact], [show_phone], [add_birthday] and
    [show_birthday] reply 'Contact not found.' and change nothing, whatever
    the other arguments are. *)
Theorem unknown_contact_reply (now : date) (name : str) (σ : state) :
  AddressBook.find (book σ) name = None ->
  forall (a b : str) (rest : list str),
    Main.change_contact (name :: a :: b :: rest) σ =
      Some (σ, Return (Text (lit "Contact not found."))) /\
    Main.remove_phone (name :: a :: rest) σ =
      Some (σ, Return (Text (lit "Contact not found."))) /\
    Main.delete_contact (name :: rest) σ =
      Some (σ, Return (Text (lit "Contact not found."))) /\
    Main.show_phone (name :: rest) σ =
      Some (σ, Return (Text (lit "Contact not found."))) /\
    Main.add_birthday now (name :: a :: rest) σ =
      Some (σ, Return (Text (lit "Contact not found."))) /\
    Main.show_birthday (name :: rest) σ =
      Some (σ, Return (Text (lit "Contact not found."))).
Proof.
  intros Hf a b rest.
  assert (Hpop : AddressBook.delete (book σ) name = Raise (KeyError name)).
  { unfold AddressBook.delete. rewrite dict_pop_absent; [done|]. by apply dict_get_None. }
  unfold Main.change_contact, Main.remove_phone, Main.delete_contact, Main.show_phone,
    Main.add_birthday, Main.show_birthday, input_error, func.change_contact,
    func.remove_phone, func.delete_contact, func.show_phone, func.add_birthday,
    func.show_birthday, mbind, cmd_bind, mret, cmd_ret, book_find, book_delete, throw.
  rewrite Hf, Hpop. done.
Qed.

(** X19.  A handler called with too few arguments replies
    'Enter the argument for the command.' and changes nothing: the message
    of the [IndexError] or of the unpacking [ValueError] is not echoed. *)
Theorem missing_arguments_reply (now : date) (args : list str) (σ : state) :
  ascii_digits ->
  (args = [] ->
     Main.add_contact args σ =
       Some (σ, Return (Text (lit "Enter the argument for the command."))) /\
     Main.delete_contact args σ =
       Some (σ, Return (Text (lit "Enter the argument for the command."))) /\
     Main.show_phone args σ =
       Some (σ, Return (Text (lit "Enter the argument for the command."))) /\
     Main.show_birthday args σ =
       Some (σ, Return (Text (lit "Enter the argument for the command.")))) /\
  ((length args < 2)%nat ->
     Main.remove_phone args σ =
       Some (σ, Return (Text (lit "Enter the argument for the command."))) /\
     Main.add_birthday now args σ =
       Some (σ, Return (Text (lit "Enter the argument for the command.")))) /\
  ((length args < 3)%nat ->
     Main.change_contact args σ =
       Some (σ, Return (Text (lit "Enter the argument for the command.")))).
Proof.
  intros Ha.
  unfold Main.add_contact, Main.change_contact, Main.remove_phone, Main.delete_contact,
    Main.show_phone, Main.add_birthday, Main.show_birthday, input_error.
  split; [|split].
  - intros ->. unfold func.add_contact, func.delete_contact, func.show_phone,
      func.show_birthday. cbn [mbind cmd_bind throw length].
    by rewrite index_reply, !unpack_reply.
  - intros Hlen. unfold func.remove_phone, func.add_birthday.
    destruct args as [|x [|y args]]; cbn [throw]; [| |simpl in Hlen; lia];
      by rewrite !unpack_reply.
  - intros Hlen. unfold func.change_contact.
    destruct args as [|x [|y [|z args]]]; cbn [throw]; [| | |simpl in Hlen; lia];
      by rewrite !unpack_reply.
Qed.

(** X20.  When a contact of the book has its birthday on 29 February and
    the current year is not a leap year, the command [birthdays], which
    takes no argument, replies 'Enter the argument for the command.'. *)
Theorem birthdays_leap_day_reply (now : date) (σ : state) (rec : Record.t)
    (b : Birthday.t) :
  ascii_digits ->
  rec ∈ AddressBook.values (objects σ) (book σ) -> Record.birthday rec = Some b ->
  leap_day (Birthday.value b) -> is_leap (year now) = false ->
  Main.birthdays now σ =
    Some (σ, Return (Text (lit "Enter the argument for the command."))).
Proof.
  intros Ha Hin Hb Hl Hy.
  destruct (upcoming_loop_leap_day now _ [] rec b Hin Hb Hl Hy) as [e He].
  pose proof (upcoming_loop_raises _ _ _ _ He) as Hm.
  unfold Main.birthdays, input_error, func.birthdays, mbind, cmd_bind,
    book_get_upcoming_birthdays, AddressBook.get_upcoming_birthdays.
  rewrite He.
  destruct Hm as [->|[->| ->]]; rewrite date_field_reply; auto.
Qed.

(** X21.  For a contact of the book, [change_contact] and [remove_phone]
    on a valid phone the contact does not hold reply with the echoed message
    of [list.index], "'<phone>' is not in list.", and on an invalid phone
    with the [ValidationError]; the session is unchanged. *)
Theorem phone_not_held_reply (name : str) (σ : state) (l : loc) (r : Record.t)
    (phone : str) :
  AddressBook.find (book σ) name = Some l -> objects σ !! l = Some r ->
  (valid_phone_value phone -> phone ∉ phone_values r ->
     forall new_phone rest,
       Main.change_contact (name :: phone :: new_phone :: rest) σ =
         Some (σ, Return (Text (lit "'" ++ phone ++ lit "' is not in list."))) /\
       Main.remove_phone (name :: phone :: rest) σ =
         Some (σ, Return (Text (lit "'" ++ phone ++ lit "' is not in list.")))) /\
  (~ valid_phone_value phone ->
     forall new_phone rest,
       Main.change_contact (name :: phone :: new_phone :: rest) σ =
         Some (σ, Return (Caught MustHave10Numbers)) /\
       Main.remove_phone (name :: phone :: rest) σ =
         Some (σ, Return (Caught MustHave10Numbers))).
Proof.
  intros Hf Hl.
  assert (Hc : forall new_phone rest,
    func.change_contact (name :: phone :: new_phone :: rest) σ =
    match Record.edit_phone r phone new_phone with
    | Ok r' => Some (mk_state (<[l := r']> (objects σ)) (book σ),
                     Return (Text (lit "Contact changed.")))
    | Raise e => Some (σ, Throw (Core e))
    end).
  { intros new_phone rest. unfold func.change_contact, mbind, cmd_bind, mret, cmd_ret,
      book_find, method. rewrite Hf, Hl. simpl.
    by destruct (Record.edit_phone r phone new_phone). }
  assert (Hr : forall rest,
    func.remove_phone (name :: phone :: rest) σ =
    match Record.remove_phone r phone with
    | Ok r' => Some (mk_state (<[l := r']> (objects σ)) (book σ),
                     Return (Text (lit "Phone remove.")))
    | Raise e => Some (σ, Throw (Core e))
    end).
  { intros rest. unfold func.remove_phone, mbind, cmd_bind, mret, cmd_ret,
      book_find, method. rewrite Hf, Hl. simpl.
    by destruct (Record.remove_phone r phone). }
  unfold Main.change_contact, Main.remove_phone, input_error. split.
  - intros Hv Hnin new_phone rest. rewrite Hc, Hr.
    destruct (edit_phone_cases r phone new_phone)
      as [(i & _ & _ & _ & Hi & _)|[(_ & _ & ->)|([Hn|[Hin _]] & _)]]; try done.
    { exfalso. apply Hnin. by eapply list_elem_of_lookup_2. }
    destruct (remove_phone_cases r phone)
      as [(i & _ & _ & Hi & _)|[(_ & _ & ->)|(Hn & _)]]; try done.
    { exfalso. apply Hnin. by eapply list_elem_of_lookup_2. }
    by rewrite not_in_list_reply.
  - intros Hn new_phone rest. rewrite Hc, Hr.
    destruct (edit_phone_cases r phone new_phone)
      as [(i & Hv & _)|[(Hv & _)|(_ & ->)]]; try done.
    destruct (remove_phone_cases r phone)
      as [(i & Hv & _)|[(Hv & _)|(_ & ->)]]; try done.
Qed.

(** X22.  For a contact of the book, [add_birthday] with a string that
    parses to a date not after today sets the birthday and replies
    'Birthday added.' or 'Birthday update.', after which [show_birthday]
    replies 'Birthday: ' followed by the date as [strftime] writes it,
    DD.MM.YYYY when the year is 1000 or later; a later date gives the
    [ValidationError], an unparsable string the reply
    'Invalid date format. Use DD.MM.YYYY.', both without change; a contact
    without birthday is shown as 'Birthday: None'. *)
Theorem birthday_commands (now : date) (name v : str) (σ : state) (l : loc)
    (r : Record.t) :
  AddressBook.find (book σ) name = Some l -> objects σ !! l = Some r ->
  (forall d rest, strptime v = Ok d -> leb d now = true ->
     let σ' := mk_state (<[l := Record.set_birthday r (Birthday.mk d)]> (objects σ))
                        (book σ) in
     Main.add_birthday now (name :: v :: rest) σ =
       Some (σ', Return (Text (match Record.birthday r with
                               | None => lit "Birthday added."
                               | Some _ => lit "Birthday update."
                               end))) /\
     (forall rest', Main.show_birthday (name :: rest') σ' =
        Some (σ', Return (Text (lit "Birthday: " ++ strftime d)))) /\
     (1000 <= year d -> DDMMYYYY (strftime d) d)) /\
  (forall d rest, strptime v = Ok d -> leb d now = false ->
     Main.add_birthday now (name :: v :: rest) σ =
       Some (σ, Return (Caught IncorrectDate))) /\
  (forall e rest, strptime v = Raise e ->
     Main.add_birthday now (name :: v :: rest) σ =
       Some (σ, Return (Text (lit "Invalid date format. Use DD.MM.YYYY.")))) /\
  (Record.birthday r = None ->
     forall rest, Main.show_birthday (name :: rest) σ =
       Some (σ, Return (Text (lit "Birthday: None")))).
Proof.
  intros Hf Hl.
  assert (Ha : forall rest,
    func.add_birthday now (name :: v :: rest) σ =
    match Record.add_birthday now r v with
    | Ok r' => Some (mk_state (<[l := r']> (objects σ)) (book σ),
                     Return (Text (match Record.birthday r with
                                   | None => lit "Birthday added."
                                   | Some _ => lit "Birthday update."
                                   end)))
    | Raise e => Some (σ, Throw (Core e))
    end).
  { intros rest. unfold func.add_birthday, mbind, cmd_bind, mret, cmd_ret,
      book_find, method, deref. rewrite Hf, Hl. simpl. rewrite Hl. simpl.
    by destruct (Record.add_birthday now r v). }
  unfold Main.add_birthday, Main.show_birthday, input_error.
  split; [|split; [|split]].
  - intros d rest Hp Hle. cbv zeta. rewrite Ha. unfold Record.add_birthday.
    rewrite (Birthday_init_past now v d); [|done|].
    2:{ unfold leb in Hle. by destruct (ltb now d). }
    split; [done|]. split.
    + intros rest'.
      unfold func.show_birthday, mbind, cmd_bind, mret, cmd_ret, book_find, deref.
      simpl. rewrite Hf. simpl. rewrite lookup_insert_eq. done.
    + intros Hy. apply strftime_DDMMYYYY; [|done]. by eapply strptime_valid.
  - intros d rest Hp Hle. rewrite Ha. unfold Record.add_birthday.
    rewrite (Birthday_init_future now v d); [done|done|].
    unfold leb in Hle. by destruct (ltb now d).
  - intros e rest Hp. rewrite Ha. unfold Record.add_birthday.
    rewrite (Birthday_init_unparsable now v e Hp). cbv [mbind result_bind].
    by rewrite invalid_date_reply.
  - intros Hb rest.
    unfold func.show_birthday, mbind, cmd_bind, mret, cmd_ret, book_find, deref.
    rewrite Hf, Hl. simpl. by rewrite Hb.
Qed.

(** X23.  [delete_contact] on a name the book holds replies
    'Contact delete.', removes that entry alone and no object; deleting
    the same name again replies 'Contact not found.'. *)
Theorem delete_contact_spec (name : str) (rest : list str) (σ : state) (l : loc) :
  store_ok σ -> AddressBook.find (book σ) name = Some l ->
  exists σ',
    Main.delete_contact (name :: rest) σ =
      Some (σ', Return (Text (lit "Contact delete."))) /\
    objects σ' = objects σ /\
    AddressBook.find (book σ') name = None /\
    (forall k, k <> name -> AddressBook.find (book σ') k = AddressBook.find (book σ) k) /\
    Main.delete_contact (name :: rest) σ' =
      Some (σ', Return (Text (lit "Contact not found."))).
Proof.
  intros (_ & _ & Hwf) Hf.
  set (data := filter (fun kv : str * loc => kv.1 <> name) (book σ)).
  assert (Hnone : AddressBook.find data name = None).
  { unfold AddressBook.find, data. rewrite dict_get_filter_ne.
    by rewrite bool_decide_eq_true_2. }
  exists (mk_state (objects σ) data).
  unfold Main.delete_contact, input_error, func.delete_contact, mbind, cmd_bind, mret,
    cmd_ret, book_delete, AddressBook.delete.
  rewrite (dict_pop_present _ _ _ Hwf Hf), bind_Ok. simpl.
  split; [done|]. split; [done|]. split; [done|]. split.
  - intros k Hk. unfold AddressBook.find, data. rewrite dict_get_filter_ne.
    by rewrite bool_decide_eq_false_2.
  - rewrite dict_pop_absent; [done|]. by apply dict_get_None.
Qed.
End replies.

(** ** Stored birthdays, and instances of the properties above *)


Lemma latin1_ascii_digits : @ascii_digits latin1.
Proof.
  intros c Hc Hd. change (latin1_isdigit c = true) in Hd. unfold latin1_isdigit in Hd.
  destruct (N.leb_spec 48 c), (N.leb_spec c 57), (N.eqb_spec c 178),
    (N.eqb_spec c 179), (N.eqb_spec c 185); simpl in Hd; try discriminate; lia.
Qed.

Lemma valid_phone_5555555555 : @valid_phone_value latin1 (lit "5555555555").
Proof. split; [reflexivity|]. repeat constructor. Qed.

Lemma bob_state_reachable : @reachable latin1 bob_state.
Proof.
  eapply reachable_step; [eapply reachable_step; [eapply reachable_step;
    [apply reachable_initial|]|]|].
  - apply (step_Record initial 0%nat (lit "Bob") None); reflexivity.
  - eapply (step_add_birthday _ (mkdate 2023 2 25) 0%nat bob_new (lit "01.03.1990") bob);
      vm_compute; reflexivity.
  - apply (step_add_record (mk_state (objects bob_state) []) 0%nat).
    vm_compute. reflexivity.
Qed.

Lemma valid_2023_02_25 : valid (mkdate 2023 2 25).
Proof. vm_compute. intuition discriminate. Qed.

(** The book that holds Bob, born on 1 March, on 25 February 2023. *)
Lemma upcoming_birthdays_returns_witness :
  exists res,
    AddressBook.get_upcoming_birthdays (mkdate 2023 2 25) (objects bob_state)
      (book bob_state) = Ok res /\
    Forall2 (Upcoming.entry_of (mkdate 2023 2 25))
      (filter (fun rec => Upcoming.qualifies (mkdate 2023 2 25) rec = true)
         (AddressBook.values (objects bob_state) (book bob_state)))
      res.
Proof.
  apply (@upcoming_birthdays_returns latin1 bob_state (mkdate 2023 2 25)).
  - apply bob_state_reachable.
  - apply valid_2023_02_25.
  - simpl. lia.
  - intros rec b Hin Hb [Hm _]. apply list_elem_of_In in Hin. vm_compute in Hin.
    destruct Hin as [<-|[]]. simpl in Hb. injection Hb as <-. discriminate Hm.
Defined.

(** A third phone added to a record with two. *)
Lemma add_phone_find_remove_witness :
  exists r',
    @Record.add_phone latin1 two_phones (lit "5555555555") = Ok r' /\
    Record.phones r' = Record.phones two_phones ++ [Phone.mk (lit "5555555555")] /\
    @Record.find_phone latin1 r' (lit "5555555555")
      = Ok (Some (Phone.mk (lit "5555555555"))) /\
    @Record.remove_phone latin1 r' (lit "5555555555") = Ok two_phones.
Proof.
  apply (@add_phone_find_remove latin1 two_phones (lit "5555555555")).
  - apply valid_phone_5555555555.
  - intros Hin. apply list_elem_of_In in Hin. vm_compute in Hin.
    destruct Hin as [Hin|[Hin|[]]]; discriminate.
Defined.

(** The first of two phones edited into a new value and back. *)
Lemma edit_phone_back_witness :
  exists r',
    @Record.edit_phone latin1 two_phones (lit "1234567890") (lit "5555555555") = Ok r' /\
    length (Record.phones r') = length (Record.phones two_phones) /\
    @Record.edit_phone latin1 r' (lit "5555555555") (lit "1234567890") = Ok two_phones.
Proof.
  apply (@edit_phone_back latin1 two_phones (lit "1234567890") (lit "5555555555")).
  - apply two_phones_NoDup.
  - apply valid_phone_1234567890.
  - apply valid_phone_5555555555.
  - apply list_elem_of_In. vm_compute. left. reflexivity.
  - intros Hin. apply list_elem_of_In in Hin. vm_compute in Hin.
    destruct Hin as [Hin|[Hin|[]]]; discriminate.
Defined.

(** Ann's record put in an empty book. *)
Lemma add_record_spec_witness :
  exists book',
    AddressBook.add_record sunday_heap [] 0%nat = Some book' /\
    AddressBook.find book' (lit "Ann") = Some 0%nat.
Proof.
  destruct (add_record_spec sunday_heap [] 0%nat
              (Record.mk (Name.mk (lit "Ann")) []
                 (Some (Birthday.mk (mkdate 1990 12 29)))))
    as (book' & Hadd & Hfind & _); [vm_compute; reflexivity|].
  exists book'. split; [exact Hadd|exact Hfind].
Defined.


(** Ann, born on 29 February, in the book of Ann and Bob in 2023. *)
Lemma upcoming_birthdays_leap_day_witness :
  exists e,
    AddressBook.get_upcoming_birthdays (mkdate 2023 2 25) (objects ann_bob_state)
      (book ann_bob_state) = Raise e /\
    typed_error e = false.
Proof.
  apply (upcoming_birthdays_leap_day (mkdate 2023 2 25) (objects ann_bob_state)
           (book ann_bob_state) ann (Birthday.mk (mkdate 2000 2 29))).
  - apply list_elem_of_In. vm_compute. left. reflexivity.
  - reflexivity.
  - split; reflexivity.
  - reflexivity.
Defined.

(** The one entry returned on Saturday 28 December 2024. *)
Lemma upcoming_birthdays_reported_dates_witness :
  AddressBook.entry_name <$> [AddressBook.mk_entry (lit "Ann") (lit "30.12.2024")] =
    (fun rec => Name.value (Record.name rec)) <$>
      filter (fun rec => Upcoming.qualifies (mkdate 2024 12 28) rec = true)
        (AddressBook.values sunday_heap sunday_book) /\
  (length [AddressBook.mk_entry (lit "Ann") (lit "30.12.2024")] <= length sunday_book)%nat /\
  Forall (fun e => exists rep,
            AddressBook.entry_birthday e = strftime rep /\
            (valid (mkdate 2024 12 28) -> 1000 <= year (mkdate 2024 12 28) ->
             DDMMYYYY (strftime rep) rep) /\
            0 <= Upcoming.days_until (mkdate 2024 12 28) rep <= 9 /\
            weekday rep <> 5 /\ weekday rep <> 6)
    [AddressBook.mk_entry (lit "Ann") (lit "30.12.2024")].
Proof.
  apply (upcoming_birthdays_reported_dates (mkdate 2024 12 28) sunday_heap sunday_book).
  vm_compute. reflexivity.
Defined.

(** A birthday on 29 December, seen on Sunday 29 December 2024, is
    listed for Monday 30 December. *)
Lemma birthday_today_is_upcoming_witness :
  exists e rep,
    e ∈ [AddressBook.mk_entry (lit "Ann") (lit "30.12.2024")] /\
    AddressBook.entry_name e = lit "Ann" /\
    AddressBook.entry_birthday e = strftime rep /\
    Upcoming.reported (mkdate 2024 12 29) rep.
Proof.
  apply (birthday_today_is_upcoming (mkdate 2024 12 29) sunday_heap sunday_book
           [AddressBook.mk_entry (lit "Ann") (lit "30.12.2024")]
           (Record.mk (Name.mk (lit "Ann")) [] (Some (Birthday.mk (mkdate 1990 12 29))))
           (Birthday.mk (mkdate 1990 12 29))).
  - vm_compute. reflexivity.
  - apply list_elem_of_In. vm_compute. left. reflexivity.
  - reflexivity.
  - reflexivity.
  - reflexivity.
Defined.

(** Bob's birthday on 1 March, seen on 2 March 2023, is looked at in
    2024. *)
Lemma occurrence_not_in_the_past_witness :
  (forall rec b, rec ∈ AddressBook.values (objects bob_state) (book bob_state) ->
     Record.birthday rec = Some b ->
     0 <= toordinal (Upcoming.occurrence (mkdate 2023 3 2) (Birthday.value b))
          - toordinal (mkdate 2023 3 2)) /\
  Forall2 (Upcoming.entry_of (mkdate 2023 3 2))
    (filter (fun rec => match Record.birthday rec with
                        | Some b =>
                            toordinal (Upcoming.occurrence (mkdate 2023 3 2)
                                         (Birthday.value b))
                              - toordinal (mkdate 2023 3 2) <=? 7
                        | None => false
                        end = true)
       (AddressBook.values (objects bob_state) (book bob_state)))
    [].
Proof.
  apply (occurrence_not_in_the_past (mkdate 2023 3 2) (objects bob_state)
           (book bob_state) []).
  - vm_compute. intuition discriminate.
  - vm_compute. reflexivity.
Defined.

(** "add Ann 12345" on the empty book: an error reply, and Ann is in the
    book. *)
Lemma add_contact_new_witness :
  exists σ',
    @Main.add_contact latin1 [lit "Ann"; lit "12345"] initial =
      Some (σ', Main.Return (Main.Caught MustHave10Numbers)) /\
    added initial σ' (lit "Ann") [].
Proof.
  apply (proj2 (proj2 (@add_contact_new latin1 (lit "Ann") initial eq_refl))).
  - discriminate.
  - intros [Hlen _]. vm_compute in Hlen. discriminate.
Defined.

(** "add Ann 1234567890" when Ann is in the book without phones. *)
Lemma add_contact_existing_witness :
  @Main.add_contact latin1 [lit "Ann"; lit "1234567890"] ann_state =
    Some (mk_state
            (<[0%nat := Record.set_phones ann
                          (Record.phones ann ++ [Phone.mk (lit "1234567890")])]>
               (objects ann_state))
            (book ann_state),
          Main.Return (Main.Text (lit "Contact update."))).
Proof.
  apply (proj1 (proj2 (@add_contact_existing latin1 (lit "Ann") ann_state 0%nat ann
                         eq_refl eq_refl))).
  - apply valid_phone_1234567890.
  - intros Hin. apply list_elem_of_In in Hin. vm_compute in Hin. destruct Hin.
Defined.

(** "change Bob 1 2" when the book holds Ann only. *)
Lemma unknown_contact_reply_witness :
  @Main.change_contact latin1 [lit "Bob"; lit "1"; lit "2"] ann_state =
    Some (ann_state, Main.Return (Main.Text (lit "Contact not found."))).
Proof.
  apply (@unknown_contact_reply latin1 (mkdate 2023 2 25) (lit "Bob") ann_state eq_refl
           (lit "1") (lit "2") []).
Defined.

(** "change Ann 1234567890", one argument short. *)
Lemma missing_arguments_reply_witness :
  @Main.change_contact latin1 [lit "Ann"; lit "1234567890"] ann_state =
    Some (ann_state,
          Main.Return (Main.Text (lit "Enter the argument for the command."))).
Proof.
  apply (proj2 (proj2 (@missing_arguments_reply latin1 (mkdate 2023 2 25)
                         [lit "Ann"; lit "1234567890"] ann_state latin1_ascii_digits))).
  simpl. lia.
Defined.

(** "birthdays" on 25 February 2023 with Ann and Bob in the book. *)
Lemma birthdays_leap_day_reply_witness :
  @Main.birthdays latin1 (mkdate 2023 2 25) ann_bob_state =
    Some (ann_bob_state,
          Main.Return (Main.Text (lit "Enter the argument for the command."))).
Proof.
  apply (@birthdays_leap_day_reply latin1 (mkdate 2023 2 25) ann_bob_state ann
           (Birthday.mk (mkdate 2000 2 29)) latin1_ascii_digits).
  - apply list_elem_of_In. vm_compute. left. reflexivity.
  - reflexivity.
  - split; reflexivity.
  - reflexivity.
Defined.

(** "remove-phone Ann 1234567890" when Ann has no phones. *)
Lemma phone_not_held_reply_witness :
  @Main.remove_phone latin1 [lit "Ann"; lit "1234567890"] ann_state =
    Some (ann_state,
          Main.Return (Main.Text (lit "'" ++ lit "1234567890" ++ lit "' is not in list."))).
Proof.
  apply (proj1 (@phone_not_held_reply latin1 (lit "Ann") ann_state 0%nat ann
                  (lit "1234567890") eq_refl eq_refl)).
  - apply valid_phone_1234567890.
  - intros Hin. apply list_elem_of_In in Hin. vm_compute in Hin. destruct Hin.
  - exact (lit "1").
Defined.

(** "add-birthday Ann 1.3.1990" and then "show-birthday Ann". *)
Lemma birthday_commands_witness :
  @Main.add_birthday latin1 (mkdate 2023 2 25) [lit "Ann"; lit "1.3.1990"] ann_state =
    Some (mk_state
            (<[0%nat := Record.set_birthday ann (Birthday.mk (mkdate 1990 3 1))]>
               (objects ann_state))
            (book ann_state),
          Main.Return (Main.Text (lit "Birthday update."))) /\
  (forall rest',
     @Main.show_birthday latin1 (lit "Ann" :: rest')
       (mk_state
          (<[0%nat := Record.set_birthday ann (Birthday.mk (mkdate 1990 3 1))]>
             (objects ann_state))
          (book ann_state)) =
     Some (mk_state
             (<[0%nat := Record.set_birthday ann (Birthday.mk (mkdate 1990 3 1))]>
                (objects ann_state))
             (book ann_state),
           Main.Return (Main.Text (lit "Birthday: " ++ strftime (mkdate 1990 3 1))))) /\
  (1000 <= year (mkdate 1990 3 1) ->
   DDMMYYYY (strftime (mkdate 1990 3 1)) (mkdate 1990 3 1)).
Proof.
  apply (proj1 (@birthday_commands latin1 (mkdate 2023 2 25) (lit "Ann") (lit "1.3.1990")
                  ann_state 0%nat ann eq_refl eq_refl) (mkdate 1990 3 1) []).
  - vm_compute. reflexivity.
  - reflexivity.
Defined.

(** "delete Ann", twice. *)
Lemma delete_contact_spec_witness :
  exists σ',
    @Main.delete_contact latin1 [lit "Ann"] ann_state =
      Some (σ', Main.Return (Main.Text (lit "Contact delete."))) /\
    objects σ' = objects ann_state /\
    AddressBook.find (book σ') (lit "Ann") = None /\
    (forall k, k <> lit "Ann" ->
       AddressBook.find (book σ') k = AddressBook.find (book ann_state) k) /\
    @Main.delete_contact latin1 [lit "Ann"] σ' =
      Some (σ', Main.Return (Main.Text (lit "Contact not found."))).
Proof.
  apply (@delete_contact_spec latin1 (lit "Ann") [] ann_state 0%nat).
  - apply reachable_store_ok, ann_state_reachable.
  - reflexivity.
Defined.

